(** * DevContainer template tooling: [scripts/bump_version.py] and
    [scripts/publish_templates.py]

    A shallow embedding of the two scripts and the properties their
    specification states about them.

    Conventions of the embedding.
    - A Python [str] is a list of Unicode code points ([N]); a file holds
      a list of code points as well (the scripts open every file as
      UTF-8 text).
    - Python integers are unbounded; the version components are
      non-negative, so they live in [N].  What is bounded is the
      conversion between [int] and [str] in base ten, which refuses
      more than 4300 digits ([python_int], [python_str]).
    - A Python call either returns or raises: [result].  Code that also
      touches the file system, the console or child processes runs in
      the monad [M] over an explicit [world].
    - Paths are POSIX paths, a list of components ([Path.parts]). *)

From Stdlib Require Import List NArith ZArith Bool Lia String Ascii.
From Stdlib Require Import Sorted Permutation.
From Stdlib Require Decimal DecimalN DecimalPos DecimalFacts.
Import ListNotations.

Set Warnings "-register-all".
Local Open Scope N_scope.

(* ================================================================== *)
(** * Text *)

Definition char := N.
Definition str := list char.

(** An ASCII literal of the source as a [str]. *)
Definition lit (s : string) : str := map N_of_ascii (list_ascii_of_string s).

Definition str_eqb (a b : str) : bool :=
  if list_eq_dec N.eq_dec a b then true else false.

Definition LF : char := 10.
Definition DOT : char := 46.
Definition SLASH : char := 47.

(** The characters of Unicode general category Nd (Unicode 14), as the
    closed intervals they form.  Every interval starts at a digit zero
    and runs through whole decades, so the value of a digit is its
    offset modulo ten.  These are the characters the pattern [\d]
    matches on a [str] and the digits [int()] reads. *)
Definition decimal_blocks : list (N * N) :=
  [ (48, 57); (1632, 1641); (1776, 1785); (1984, 1993); (2406, 2415);
    (2534, 2543); (2662, 2671); (2790, 2799); (2918, 2927); (3046, 3055);
    (3174, 3183); (3302, 3311); (3430, 3439); (3558, 3567); (3664, 3673);
    (3792, 3801); (3872, 3881); (4160, 4169); (4240, 4249); (6112, 6121);
    (6160, 6169); (6470, 6479); (6608, 6617); (6784, 6793); (6800, 6809);
    (6992, 7001); (7088, 7097); (7232, 7241); (7248, 7257); (42528, 42537);
    (43216, 43225); (43264, 43273); (43472, 43481); (43504, 43513);
    (43600, 43609); (44016, 44025); (65296, 65305); (66720, 66729);
    (68912, 68921); (69734, 69743); (69872, 69881); (69942, 69951);
    (70096, 70105); (70384, 70393); (70736, 70745); (70864, 70873);
    (71248, 71257); (71360, 71369); (71472, 71481); (71904, 71913);
    (72016, 72025); (72784, 72793); (73040, 73049); (73120, 73129);
    (92768, 92777); (92864, 92873); (93008, 93017); (120782, 120831);
    (123200, 123209); (123632, 123641); (125264, 125273);
    (130032, 130041) ].

Definition in_block (c : char) (b : N * N) : bool :=
  (fst b <=? c) && (c <=? snd b).

Definition decimal_value (c : char) : option N :=
  match find (in_block c) decimal_blocks with
  | Some b => Some ((c - fst b) mod 10)
  | None => None
  end.

Definition is_decimal (c : char) : bool :=
  match decimal_value c with Some _ => true | None => false end.

(** The number a string of decimal digits denotes in base ten. *)
Definition digit_step (acc : N) (c : char) : N :=
  10 * acc + match decimal_value c with Some d => d | None => 0 end.

Definition int_of_digits (s : str) : N := fold_left digit_step s 0.

Fixpoint uint_digits (u : Decimal.uint) : str :=
  match u with
  | Decimal.Nil => []
  | Decimal.D0 u => 48 :: uint_digits u
  | Decimal.D1 u => 49 :: uint_digits u
  | Decimal.D2 u => 50 :: uint_digits u
  | Decimal.D3 u => 51 :: uint_digits u
  | Decimal.D4 u => 52 :: uint_digits u
  | Decimal.D5 u => 53 :: uint_digits u
  | Decimal.D6 u => 54 :: uint_digits u
  | Decimal.D7 u => 55 :: uint_digits u
  | Decimal.D8 u => 56 :: uint_digits u
  | Decimal.D9 u => 57 :: uint_digits u
  end.

(** The decimal numeral of a non-negative integer.  This is [str(n)]
    for an integer of at most 4300 digits, which every [len()] and
    every counter of the scripts is; [python_str] below is [str] on any
    integer. *)
Definition str_of_int (n : N) : str := uint_digits (N.to_uint n).

(* ================================================================== *)
(** * Exceptions *)

Inductive exn_class :=
| ValueError
| JSONDecodeError
| UnicodeDecodeError
| UnicodeEncodeError
| TypeError
| AttributeError
| OSError
| FileNotFoundError
| IsADirectoryError
| CalledProcessError.

Definition exn_class_eqb (a b : exn_class) : bool :=
  match a, b with
  | ValueError, ValueError | JSONDecodeError, JSONDecodeError
  | UnicodeDecodeError, UnicodeDecodeError
  | UnicodeEncodeError, UnicodeEncodeError
  | TypeError, TypeError | AttributeError, AttributeError
  | OSError, OSError | FileNotFoundError, FileNotFoundError
  | IsADirectoryError, IsADirectoryError
  | CalledProcessError, CalledProcessError => true
  | _, _ => false
  end.

(** The direct base class inside the built-in hierarchy; [None] stands
    for [Exception] itself. *)
Definition base_class (c : exn_class) : option exn_class :=
  match c with
  | JSONDecodeError | UnicodeDecodeError | UnicodeEncodeError => Some ValueError
  | FileNotFoundError | IsADirectoryError => Some OSError
  | _ => None
  end.

(** [isinstance(e, c)] for an exception of class [d]. *)
Definition subclass (d c : exn_class) : bool :=
  exn_class_eqb d c ||
  match base_class d with
  | Some b => exn_class_eqb b c
  | None => false
  end.

Record exn := Exn { exn_type : exn_class; exn_msg : str }.

Inductive result (A : Type) :=
| Return (a : A)
| Raise (e : exn).
Arguments Return {A} a.
Arguments Raise {A} e.

(* ================================================================== *)
(** * Version engine ([bump_version.py], lines 36-86) *)

(** [sys.get_int_max_str_digits()], at its default: the conversions
    between [int] and [str] in base ten refuse more digits. *)
Definition INT_MAX_STR_DIGITS : N := 4300.

Definition int_limit_error (digits : N) : exn :=
  Exn ValueError
    (lit "Exceeds the limit (4300 digits) for integer string conversion: value has "
       ++ str_of_int digits
       ++ lit " digits; use sys.set_int_max_str_digits() to increase the limit").

Definition str_limit_error : exn :=
  Exn ValueError
    (lit "Exceeds the limit (4300 digits) for integer string conversion; use sys.set_int_max_str_digits() to increase the limit").

(** [int(s)] on a string of decimal digits; the digits are counted as
    they stand, zeros in front included. *)
Definition python_int (s : str) : result N :=
  let digits := N.of_nat (List.length s) in
  if INT_MAX_STR_DIGITS <? digits then Raise (int_limit_error digits)
  else Return (int_of_digits s).

(** [str(n)] for a non-negative integer, which is also what an f-string
    field shows. *)
Definition python_str (n : N) : result str :=
  let s := str_of_int n in
  if INT_MAX_STR_DIGITS <? N.of_nat (List.length s) then Raise str_limit_error
  else Return s.

(** [\d+]: the longest prefix of decimal digits, which must not be
    empty.  What follows a group in the pattern is never a digit, so
    the greedy choice is the only one that can succeed. *)
Fixpoint span_digits (s : str) : str * str :=
  match s with
  | c :: rest =>
      if is_decimal c
      then let (d, tl) := span_digits rest in (c :: d, tl)
      else ([], s)
  | [] => ([], [])
  end.

Definition match_group (s : str) : option (str * str) :=
  match span_digits s with
  | ([], _) => None
  | (d, rest) => Some (d, rest)
  end.

(** [\.] *)
Definition match_dot (s : str) : option str :=
  match s with
  | c :: rest => if c =? DOT then Some rest else None
  | [] => None
  end.

(** [$] without [re.MULTILINE]: the end of the string, or the position
    just before a line feed that ends the string. *)
Definition match_end (s : str) : bool :=
  match s with
  | [] => true
  | [c] => c =? LF
  | _ => false
  end.

(** [re.match(r'^(\d+)\.(\d+)\.(\d+)$', version)], with the three groups. *)
Definition re_match_semver (version : str) : option (str * str * str) :=
  match match_group version with
  | None => None
  | Some (g1, s1) =>
    match match_dot s1 with
    | None => None
    | Some s2 =>
      match match_group s2 with
      | None => None
      | Some (g2, s3) =>
        match match_dot s3 with
        | None => None
        | Some s4 =>
          match match_group s4 with
          | None => None
          | Some (g3, s5) =>
              if match_end s5 then Some (g1, g2, g3) else None
          end
        end
      end
    end
  end.

Definition parse_version (version : str) : result (N * N * N) :=
  match re_match_semver version with
  | None =>
      Raise (Exn ValueError (lit "Invalid semver format: " ++ version))
  | Some (g1, g2, g3) =>
      match python_int g1 with
      | Raise e => Raise e
      | Return major =>
          match python_int g2 with
          | Raise e => Raise e
          | Return minor =>
              match python_int g3 with
              | Raise e => Raise e
              | Return patch => Return (major, minor, patch)
              end
          end
      end
  end.

(** [f"{major}.{minor}.{patch}"]: the fields are formatted from left
    to right. *)
Definition format_version (major minor patch : N) : result str :=
  match python_str major with
  | Raise e => Raise e
  | Return a =>
      match python_str minor with
      | Raise e => Raise e
      | Return b =>
          match python_str patch with
          | Raise e => Raise e
          | Return c => Return (a ++ [DOT] ++ b ++ [DOT] ++ c)
          end
      end
  end.

Definition increment_version (version level : str) : result str :=
  match parse_version version with
  | Raise e => Raise e
  | Return (major, minor, patch) =>
      if str_eqb level (lit "patch") then
        let patch := patch + 1 in
        format_version major minor patch
      else if str_eqb level (lit "minor") then
        let minor := minor + 1 in
        let patch := 0 in
        format_version major minor patch
      else if str_eqb level (lit "major") then
        let major := major + 1 in
        let minor := 0 in
        let patch := 0 in
        format_version major minor patch
      else
        Raise (Exn ValueError
                 (lit "Unknown level '" ++ level
                    ++ lit "'. Use: patch, minor, or major"))
  end.

(* ================================================================== *)
(** * File system and paths *)

(** What a file holds.  The scripts read and write text only; an entry
    is one code unit of the file. *)
Definition bytes := list N.

Inductive node :=
| File (content : bytes)
| Dir (entries : list (str * node))
| Special.
(** [Special] is anything that exists and is neither a regular file nor
    a directory (a FIFO, a socket, a device). *)

(** [Path.parts]; paths are relative to the root of the modelled tree,
    which is the working directory.  Their parts are names: the tree
    has no symbolic link and no path goes through [..]. *)
Definition path := list str.

Fixpoint assoc {A : Type} (name : str) (entries : list (str * A)) : option A :=
  match entries with
  | [] => None
  | (k, v) :: rest => if str_eqb k name then Some v else assoc name rest
  end.

Fixpoint lookup (n : node) (p : path) : option node :=
  match p with
  | [] => Some n
  | name :: rest =>
      match n with
      | Dir entries =>
          match assoc name entries with
          | Some child => lookup child rest
          | None => None
          end
      | _ => None
      end
  end.

Definition path_exists (root : node) (p : path) : bool :=
  match lookup root p with Some _ => true | None => false end.

Definition is_file (root : node) (p : path) : bool :=
  match lookup root p with Some (File _) => true | _ => false end.

Definition is_dir (root : node) (p : path) : bool :=
  match lookup root p with Some (Dir _) => true | _ => false end.

(** [Path.name]: the last component, empty for the path with no parts. *)
Definition name (p : path) : str := last p [].

Fixpoint join (sep : str) (parts : list str) : str :=
  match parts with
  | [] => []
  | [x] => x
  | x :: rest => x ++ sep ++ join sep rest
  end.

(** [str(path)] *)
Definition path_str (p : path) : str :=
  match p with
  | [] => [DOT]
  | _ => join [SLASH] p
  end.

(** [str.rfind('.')] on a name, as the pair of what precedes the last
    dot and what follows it. *)
Fixpoint rsplit_dot (s : str) : option (str * str) :=
  match s with
  | [] => None
  | c :: rest =>
      match rsplit_dot rest with
      | Some (stem, ext) => Some (c :: stem, ext)
      | None => if c =? DOT then Some ([], rest) else None
      end
  end.

(** [PurePath.suffix]: the last dot and what follows, unless the dot
    starts or ends the name. *)
Definition stem_of (nm : str) : str :=
  match rsplit_dot nm with
  | Some (c :: stem, _ :: _) => c :: stem
  | _ => nm
  end.

(** [Path.with_suffix(suffix)], for a suffix that is a dot followed by
    something, as ['.tmp'] is. *)
Definition with_suffix (p : path) (suffix : str) : result path :=
  match name p with
  | [] => Raise (Exn ValueError (lit "PosixPath('" ++ path_str p
                                    ++ lit "') has an empty name"))
  | nm => Return (removelast p ++ [stem_of nm ++ suffix])
  end.

(** [a < b] on two Python sequences: the first position where the
    items differ decides; when there is none the shorter one is less. *)
Fixpoint seq_ltb {A : Type} (ltb eqb : A -> A -> bool) (a b : list A) : bool :=
  match a, b with
  | _, [] => false
  | [], _ :: _ => true
  | x :: a', y :: b' => if eqb x y then seq_ltb ltb eqb a' b' else ltb x y
  end.

(** [str] compares by code points. *)
Definition str_ltb : str -> str -> bool := seq_ltb N.ltb N.eqb.

(** The order of [PurePosixPath]: the lists of parts are compared. *)
Definition path_ltb : path -> path -> bool := seq_ltb str_ltb str_eqb.

(** [sorted(...)]: a stable sort by [<]. *)
Fixpoint insert_sorted (p : path) (l : list path) : list path :=
  match l with
  | [] => [p]
  | q :: rest =>
      if path_ltb q p then q :: insert_sorted p rest else p :: q :: rest
  end.

Definition sorted (l : list path) : list path :=
  fold_right insert_sorted [] l.

(** [dir.rglob(pattern)] for a pattern without wildcards: every
    directory of the subtree, [dir] first, is asked whether it has an
    entry of that name.  The entry may be of any kind. *)
Fixpoint rglob_node (pattern : str) (here : path) (n : node) : list path :=
  match n with
  | Dir entries =>
      (match assoc pattern entries with
       | Some _ => [here ++ [pattern]]
       | None => []
       end)
      ++ (fix walk (es : list (str * node)) : list path :=
            match es with
            | [] => []
            | (nm, child) :: rest =>
                rglob_node pattern (here ++ [nm]) child ++ walk rest
            end) entries
  | _ => []
  end.

Definition rglob (root : node) (dir : path) (pattern : str) : list path :=
  match lookup root dir with
  | Some n => rglob_node pattern dir n
  | None => []
  end.

Definition MANIFEST : str := lit "devcontainer-template.json".

(** ** Template locator ([bump_version.py], lines 89-115) *)

Definition find_templates (root : node) (target : path) : result (list path) :=
  if negb (path_exists root target) then
    Raise (Exn FileNotFoundError (lit "Target not found: " ++ path_str target))
  else if is_file root target && str_eqb (name target) MANIFEST then
    Return [target]
  else if is_dir root target then
    let templates := sorted (rglob root target MANIFEST) in
    match templates with
    | [] => Raise (Exn ValueError
                     (lit "No templates found in " ++ path_str target))
    | _ => Return templates
    end
  else
    Raise (Exn ValueError (lit "Invalid target: " ++ path_str target)).

(* ================================================================== *)
(** * JSON values and the Python runtime *)

(** What [json.load] builds.  A number is kept as its [repr], which
    identifies a Python [int] or [float]; a [dict] keeps its items in
    insertion order. *)
Inductive value :=
| VNone
| VBool (b : bool)
| VNum (repr : str)
| VStr (s : str)
| VList (items : list value)
| VDict (items : list (str * value)).

(** [d[k] = v] on an insertion-ordered mapping: an existing key keeps
    its place, a new one goes last. *)
Fixpoint assoc_set {A : Type} (k : str) (v : A) (es : list (str * A))
  : list (str * A) :=
  match es with
  | [] => [(k, v)]
  | (k', v') :: rest =>
      if str_eqb k' k then (k, v) :: rest else (k', v') :: assoc_set k v rest
  end.

Fixpoint assoc_remove {A : Type} (k : str) (es : list (str * A))
  : list (str * A) :=
  match es with
  | [] => []
  | (k', v') :: rest =>
      if str_eqb k' k then rest else (k', v') :: assoc_remove k rest
  end.

(** [bool(v)] *)
Definition truthy (v : value) : bool :=
  match v with
  | VNone => false
  | VBool b => b
  | VNum r =>
      negb (str_eqb r (lit "0") || str_eqb r (lit "0.0")
            || str_eqb r (lit "-0.0"))
  | VStr s => match s with [] => false | _ => true end
  | VList l => match l with [] => false | _ => true end
  | VDict d => match d with [] => false | _ => true end
  end.

(** [data.get(key, default)]; only a [dict] has the method. *)
Definition get (data : value) (key : str) (default : value) : result value :=
  match data with
  | VDict items =>
      Return (match assoc key items with Some v => v | None => default end)
  | _ => Raise (Exn AttributeError (lit "object has no attribute 'get'"))
  end.

(** [data[key] = v] with a [str] key. *)
Definition setitem (data : value) (key : str) (v : value) : result value :=
  match data with
  | VDict items => Return (VDict (assoc_set key v items))
  | _ => Raise (Exn TypeError (lit "object does not support item assignment"))
  end.

(** The parts of the Python runtime the scripts call and this
    development does not fix: the [json] codec on the text of a file,
    and [repr] of a container.  [json_load] raises [JSONDecodeError] on
    text that is not JSON and [UnicodeDecodeError] on a file that is
    not UTF-8; [json_dump data] is what [json.dump(data, f, indent=2)]
    writes. *)
Class Runtime := {
  json_load : bytes -> result value;
  json_dump : value -> bytes;
  repr : value -> str;
}.

(** [str(v)], which is what an f-string field shows. *)
Definition format_value `{Runtime} (v : value) : str :=
  match v with
  | VNone => lit "None"
  | VBool true => lit "True"
  | VBool false => lit "False"
  | VNum r => r
  | VStr s => s
  | _ => repr v
  end.

(* ================================================================== *)
(** * The world and the monad of effects *)

(** How [subprocess.run] on a command ends: the child ran to its end,
    with an exit status and what it wrote to its standard error; its
    program was not found; or the call raises another exception, an
    [OSError] such as [PermissionError] when the program cannot be
    started (the child is not started then), [UnicodeDecodeError] when
    captured output cannot be decoded (the child has run then). *)
Inductive child_result :=
| Exited (code : Z) (captured_stderr : str)
| NotFound
| Raises (e : exn) (started : bool).

(** - [stdout], [stderr]: the lines printed so far, oldest first.
    - [stdout_encodes]: the characters the encoding of [sys.stdout] has;
      [sys.stderr] escapes what it cannot encode and accepts any text.
    - [faults]: what the operating system does to the next operations
      on files, in order: [None] lets the operation run, [Some k] fails
      it with [OSError] (a write after [k] code units reached the
      file).  Past the end of the list nothing fails.
    - [children]: how a child process started with a given [argv] ends.
    - [spawned]: the [argv] of the children started so far, oldest
      first. *)
Record world := World {
  fs : node;
  stdout : list str;
  stderr : list str;
  stdout_encodes : char -> bool;
  faults : list (option nat);
  children : list str -> child_result;
  spawned : list (list str);
}.

Definition with_fs (w : world) (root : node) : world :=
  World root (stdout w) (stderr w) (stdout_encodes w)
        (faults w) (children w) (spawned w).

Definition add_stdout (w : world) (line : str) : world :=
  World (fs w) (stdout w ++ [line]) (stderr w) (stdout_encodes w)
        (faults w) (children w) (spawned w).

Definition add_stderr (w : world) (line : str) : world :=
  World (fs w) (stdout w) (stderr w ++ [line]) (stdout_encodes w)
        (faults w) (children w) (spawned w).

Definition with_faults (w : world) (rest : list (option nat)) : world :=
  World (fs w) (stdout w) (stderr w) (stdout_encodes w)
        rest (children w) (spawned w).

Definition add_spawned (w : world) (argv : list str) : world :=
  World (fs w) (stdout w) (stderr w) (stdout_encodes w)
        (faults w) (children w) (spawned w ++ [argv]).

Definition M (A : Type) : Type := world -> result A * world.

Definition ret {A : Type} (a : A) : M A := fun w => (Return a, w).

Definition raise {A : Type} (e : exn) : M A := fun w => (Raise e, w).

Definition lift {A : Type} (r : result A) : M A := fun w => (r, w).

Definition bind {A B : Type} (m : M A) (k : A -> M B) : M B :=
  fun w =>
    match m w with
    | (Return a, w') => k a w'
    | (Raise e, w') => (Raise e, w')
    end.

(** [try: body  except Exception as e: handler e]; the handlers of the
    scripts test the class of [e] themselves. *)
Definition try_except {A : Type} (body : M A) (handler : exn -> M A) : M A :=
  fun w =>
    match body w with
    | (Return a, w') => (Return a, w')
    | (Raise e, w') => handler e w'
    end.

Declare Scope py_scope.
Delimit Scope py_scope with py.
Notation "x <- m ;; k" := (bind m (fun x => k))
  (at level 100, m at next level, right associativity) : py_scope.
Notation "m ;; k" := (bind m (fun _ => k))
  (at level 100, right associativity) : py_scope.
Local Open Scope py_scope.

(** ** Console *)

Definition ESC : char := 27.
Definition RED : str := ESC :: lit "[0;31m".
Definition GREEN : str := ESC :: lit "[0;32m".
Definition YELLOW : str := ESC :: lit "[1;33m".
Definition BLUE : str := ESC :: lit "[0;34m".
Definition RESET : str := ESC :: lit "[0m".
Definition CHECK_MARK : char := 10003.
Definition BALLOT_X : char := 10007.

(** [print(line)]: the line is encoded as a whole, strictly; a
    character outside the encoding raises and nothing is written. *)
Definition print (line : str) : M unit :=
  fun w =>
    if forallb (stdout_encodes w) line then
      (Return tt, add_stdout w line)
    else
      (Raise (Exn UnicodeEncodeError (lit "codec can't encode character")), w).

(** [print(line, file=sys.stderr)] *)
Definition eprint (line : str) : M unit :=
  fun w => (Return tt, add_stderr w line).

(** ** Files *)

(** The tree as the process finds it. *)
Definition file_system : M node := fun w => (Return (fs w), w).

Definition take_fault : M (option nat) :=
  fun w =>
    match faults w with
    | [] => (Return None, w)
    | f :: rest => (Return f, with_faults w rest)
    end.

Fixpoint put (root : node) (p : path) (new : node) : option node :=
  match p with
  | [] => None
  | nm :: rest =>
      match root with
      | Dir es =>
          match rest with
          | [] => Some (Dir (assoc_set nm new es))
          | _ :: _ =>
              match assoc nm es with
              | Some child =>
                  match put child rest new with
                  | Some child' => Some (Dir (assoc_set nm child' es))
                  | None => None
                  end
              | None => None
              end
          end
      | _ => None
      end
  end.

Fixpoint remove (root : node) (p : path) : option node :=
  match p with
  | [] => None
  | nm :: rest =>
      match root with
      | Dir es =>
          match rest with
          | [] => Some (Dir (assoc_remove nm es))
          | _ :: _ =>
              match assoc nm es with
              | Some child =>
                  match remove child rest with
                  | Some child' => Some (Dir (assoc_set nm child' es))
                  | None => None
                  end
              | None => None
              end
          end
      | _ => None
      end
  end.

Definition os_error (msg : string) : exn := Exn OSError (lit msg).

(** [with open(p, encoding='utf-8') as f: f.read()] *)
Definition read_text (p : path) : M bytes :=
  fault <- take_fault ;;
  match fault with
  | Some _ => raise (os_error "Input/output error")
  | None =>
      fun w =>
        match lookup (fs w) p with
        | Some (File content) => (Return content, w)
        | Some (Dir _) =>
            (Raise (Exn IsADirectoryError (lit "Is a directory")), w)
        | Some Special => (Raise (os_error "Cannot read"), w)
        | None =>
            (Raise (Exn FileNotFoundError (lit "No such file or directory")), w)
        end
  end.

(** [with open(p, 'w', encoding='utf-8') as f: f.write(content)]: the
    file is created or truncated, then filled. *)
Definition write_text (p : path) (content : bytes) : M unit :=
  fault <- take_fault ;;
  fun w =>
    match lookup (fs w) p with
    | Some (Dir _) => (Raise (Exn IsADirectoryError (lit "Is a directory")), w)
    | Some Special => (Raise (os_error "Cannot write"), w)
    | _ =>
        let written :=
          match fault with Some k => firstn k content | None => content end in
        match put (fs w) p (File written) with
        | None =>
            (Raise (Exn FileNotFoundError (lit "No such file or directory")), w)
        | Some root' =>
            match fault with
            | Some _ => (Raise (os_error "No space left on device"), with_fs w root')
            | None => (Return tt, with_fs w root')
            end
        end
    end.

Definition path_eqb (p q : path) : bool :=
  if list_eq_dec (list_eq_dec N.eq_dec) p q then true else false.

(** [src.replace(dst)], that is [os.replace]: one step that either
    fails and changes nothing or makes [dst] name what [src] named. *)
Definition replace (src dst : path) : M unit :=
  fault <- take_fault ;;
  match fault with
  | Some _ => raise (os_error "Operation not permitted")
  | None =>
      fun w =>
        match lookup (fs w) src with
        | None =>
            (Raise (Exn FileNotFoundError (lit "No such file or directory")), w)
        | Some n =>
            if path_eqb src dst then (Return tt, w)
            else
              match n, lookup (fs w) dst with
              | File _, Some (Dir _) =>
                  (Raise (Exn IsADirectoryError (lit "Is a directory")), w)
              | Dir _, Some (File _) | Dir _, Some Special =>
                  (Raise (os_error "Not a directory"), w)
              | Dir _, Some (Dir (_ :: _)) =>
                  (Raise (os_error "Directory not empty"), w)
              | _, _ =>
                  match remove (fs w) src with
                  | None => (Raise (os_error "Invalid argument"), w)
                  | Some root1 =>
                      match put root1 dst n with
                      | None =>
                          (Raise (Exn FileNotFoundError
                                    (lit "No such file or directory")), w)
                      | Some root2 => (Return tt, with_fs w root2)
                      end
                  end
              end
        end
  end.

(** ** Child processes *)

(** [subprocess.run(argv, check=True)], with or without captured
    output. *)
Definition subprocess_run (argv : list str) : M unit :=
  fun w =>
    match children w argv with
    | NotFound =>
        (Raise (Exn FileNotFoundError (lit "No such file or directory")), w)
    | Exited code err =>
        let w' := add_spawned w argv in
        if (code =? 0)%Z then (Return tt, w')
        else (Raise (Exn CalledProcessError err), w')
    | Raises e started =>
        (Raise e, if started then add_spawned w argv else w)
    end.

(* ================================================================== *)
(** * Template updater ([bump_version.py], lines 118-192) *)

(** The call [increment_version(current_version, level)] with whatever
    the manifest holds under ["version"]: [re.match] wants a [str]. *)
Definition call_increment_version (current_version : value) (level : str)
  : result str :=
  match current_version with
  | VStr s => increment_version s level
  | _ => Raise (Exn TypeError (lit "expected string or bytes-like object"))
  end.

Section Updater.
Context `{Runtime}.

Definition update_template_version
    (template_file : path) (level : str) (dry_run : bool) : M bool :=
  try_except
    (text <- read_text template_file ;;
     data <- lift (json_load text) ;;
     current_version <- lift (get data (lit "version") VNone) ;;
     template_id <- lift (get data (lit "id") (VStr (lit "unknown"))) ;;
     if negb (truthy current_version) then
       eprint (RED ++ lit "Error: No version field in "
                   ++ path_str template_file ++ RESET) ;;
       ret false
     else
       match call_increment_version current_version level with
       | Raise e =>
           if subclass (exn_type e) ValueError then
             eprint (RED ++ lit "Error: " ++ exn_msg e ++ RESET) ;;
             ret false
           else raise e
       | Return new_version =>
           print (BLUE ++ lit "Template: " ++ format_value template_id
                       ++ RESET) ;;
           print (lit "  Current: " ++ format_value current_version) ;;
           print (lit "  New:     " ++ GREEN ++ new_version ++ RESET) ;;
           if dry_run then
             print (lit "  " ++ YELLOW
                      ++ lit "[DRY RUN] Skipping actual update" ++ RESET) ;;
             ret true
           else
             data <- lift (setitem data (lit "version") (VStr new_version)) ;;
             temp_file <- lift (with_suffix template_file (lit ".tmp")) ;;
             write_text temp_file (json_dump data ++ [LF]) ;;
             written <- read_text temp_file ;;
             _ <- lift (json_load written) ;;
             replace temp_file template_file ;;
             print (lit "  " ++ GREEN ++ [CHECK_MARK] ++ lit " Updated"
                      ++ RESET) ;;
             ret true
       end)
    (fun e =>
       if subclass (exn_type e) JSONDecodeError then
         eprint (RED ++ lit "Error: Invalid JSON in "
                     ++ path_str template_file ++ lit ": " ++ exn_msg e
                     ++ RESET) ;;
         ret false
       else
         eprint (RED ++ lit "Error updating " ++ path_str template_file
                     ++ lit ": " ++ exn_msg e ++ RESET) ;;
         ret false).

End Updater.

(* ================================================================== *)
(** * Commit step ([bump_version.py], lines 195-232) *)

(** The characters [str.strip()] removes. *)
Definition is_space (c : char) : bool :=
  ((9 <=? c) && (c <=? 13)) || ((28 <=? c) && (c <=? 32))
  || (c =? 133) || (c =? 160) || (c =? 5760)
  || ((8192 <=? c) && (c <=? 8202)) || (c =? 8232) || (c =? 8233)
  || (c =? 8239) || (c =? 8287) || (c =? 12288).

Fixpoint lstrip (s : str) : str :=
  match s with
  | c :: rest => if is_space c then lstrip rest else s
  | [] => []
  end.

Definition strip (s : str) : str :=
  List.rev (lstrip (List.rev (lstrip s))).

Definition git_add : list str :=
  [lit "git"; lit "add"; lit "src/*/devcontainer-template.json"].

Definition commit_message (level : str) : str :=
  lit "chore: bump template versions (" ++ level ++ lit ")".

Definition git_commit (level : str) : list str :=
  [lit "git"; lit "commit"; lit "-m"; commit_message level].

Definition commit_changes (level : str) : M bool :=
  try_except
    (subprocess_run git_add ;;
     subprocess_run (git_commit level) ;;
     print (GREEN ++ [CHECK_MARK] ++ lit " Changes committed" ++ RESET) ;;
     ret true)
    (fun e =>
       if subclass (exn_type e) CalledProcessError then
         let stderr :=
           match exn_msg e with
           | [] => lit "Unknown error"
           | err => strip err
           end in
         eprint (RED ++ lit "Git error: " ++ stderr ++ RESET) ;;
         ret false
       else if subclass (exn_type e) FileNotFoundError then
         eprint (RED ++ lit "Error: git command not found" ++ RESET) ;;
         ret false
       else raise e).

(* ================================================================== *)
(** * Entry point of the version bump ([bump_version.py], lines 292-344) *)

(** What [parse_arguments] returns.  [main] starts from these values:
    [Colors.init()] does nothing but on Windows, where it switches the
    console to ANSI sequences, and [argparse] ends the process itself
    on a command line it rejects. *)
Record bump_args := BumpArgs {
  arg_level : str;
  arg_target : path;
  arg_dry_run : bool;
  arg_commit : bool;
}.

Section BumpMain.
Context `{Runtime}.

(** The loop of [main] over the templates, threading [failed]. *)
Fixpoint update_each (templates : list path) (level : str) (dry_run : bool)
    (failed : N) : M N :=
  match templates with
  | [] => ret failed
  | template :: rest =>
      ok <- update_template_version template level dry_run ;;
      let failed := if negb ok then failed + 1 else failed in
      print [] ;;
      update_each rest level dry_run failed
  end.

Definition main (args : bump_args) : M Z :=
  print (BLUE ++ lit "=== DevContainer Template Version Bumper ==="
              ++ RESET) ;;
  print (lit "Level: " ++ YELLOW ++ arg_level args ++ RESET) ;;
  print (lit "Target: " ++ path_str (arg_target args)) ;;
  (if arg_dry_run args
   then print (lit "Mode: " ++ YELLOW ++ lit "DRY RUN" ++ RESET)
   else ret tt) ;;
  print [] ;;
  root <- file_system ;;
  match find_templates root (arg_target args) with
  | Raise e =>
      if subclass (exn_type e) FileNotFoundError
         || subclass (exn_type e) ValueError
      then
        eprint (RED ++ lit "Error: " ++ exn_msg e ++ RESET) ;;
        ret 1%Z
      else raise e
  | Return templates =>
      print (lit "Found " ++ str_of_int (N.of_nat (List.length templates))
               ++ lit " template(s):") ;;
      print [] ;;
      failed <- update_each templates (arg_level args) (arg_dry_run args) 0 ;;
      failed <-
        (if arg_commit args && negb (arg_dry_run args) && (failed =? 0)
         then
           print (BLUE ++ lit "Committing changes..." ++ RESET) ;;
           ok <- commit_changes (arg_level args) ;;
           ret (if negb ok then failed + 1 else failed)
         else ret failed) ;;
      print (BLUE ++ lit "=== Summary ===" ++ RESET) ;;
      if failed =? 0 then
        print (GREEN ++ [CHECK_MARK]
                 ++ lit " All templates updated successfully" ++ RESET) ;;
        ret 0%Z
      else
        print (RED ++ [BALLOT_X] ++ lit " " ++ str_of_int failed
                 ++ lit " template(s) failed to update" ++ RESET) ;;
        ret 1%Z
  end.

End BumpMain.

(** [sys.exit(main())]: the status the process ends with.  An exception
    nobody caught ends the interpreter with status 1. *)
Definition exit_status (m : M Z) (w : world) : Z * world :=
  match m w with
  | (Return code, w') => (code, w')
  | (Raise _, w') => (1%Z, w')
  end.

(* ================================================================== *)
(** * Publish orchestrator ([publish_templates.py]) *)

Module publish_templates.

(** What [parse_arguments] returns, with the two values of the
    process the command line of the bump step is built from. *)
Record publish_args := PublishArgs {
  arg_target : str;
  arg_update_version : bool;
  arg_level : str;
  arg_namespace : str;
  arg_registry : str;
  arg_dry_run : bool;
  sys_executable : str;
  SCRIPT_DIR : str;
}.

Definition bump_cmd (args : publish_args) : list str :=
  [ sys_executable args;
    SCRIPT_DIR args ++ lit "/bump_version.py";
    lit "--level"; arg_level args;
    lit "--target"; arg_target args ]
  ++ (if arg_dry_run args then [lit "--dry-run"] else [lit "--commit"]).

Definition publish_cmd (args : publish_args) : list str :=
  [ lit "devcontainer"; lit "templates"; lit "publish"; arg_target args;
    lit "-r"; arg_registry args;
    lit "-n"; arg_namespace args ].

Definition main (args : publish_args) : M Z :=
  print (BLUE ++ lit "=== DevContainer Template Publisher ===" ++ RESET) ;;
  print (lit "Target: " ++ arg_target args) ;;
  print (lit "Registry: " ++ arg_registry args) ;;
  print (lit "Namespace: " ++ arg_namespace args) ;;
  (if arg_update_version args
   then print (lit "Update version: " ++ YELLOW ++ lit "Yes" ++ RESET
                 ++ lit " (level: " ++ arg_level args ++ lit ")")
   else print (lit "Update version: " ++ YELLOW ++ lit "No" ++ RESET)) ;;
  print [] ;;
  bumped <-
    (if arg_update_version args then
       print (BLUE ++ lit "Step 1: Bumping versions..." ++ RESET) ;;
       ok <- try_except
               (subprocess_run (bump_cmd args) ;; ret true)
               (fun e =>
                  if subclass (exn_type e) CalledProcessError
                  then ret false else raise e) ;;
       if ok then print [] ;; ret true else ret false
     else ret true) ;;
  if negb bumped then ret 1%Z
  else
    let step_num := if arg_update_version args then 2 else 1 in
    if negb (arg_dry_run args) then
      print (BLUE ++ lit "Step " ++ str_of_int step_num
               ++ lit ": Publishing templates..." ++ RESET) ;;
      print (YELLOW ++ lit "Publishing to " ++ arg_registry args
               ++ [SLASH] ++ arg_namespace args ++ lit "..." ++ RESET) ;;
      published <-
        try_except
          (subprocess_run (publish_cmd args) ;; ret true)
          (fun e =>
             if subclass (exn_type e) CalledProcessError then ret false
             else if subclass (exn_type e) FileNotFoundError then
               eprint (RED ++ lit "Error: devcontainer command not found"
                           ++ RESET) ;;
               ret false
             else raise e) ;;
      if negb published then ret 1%Z
      else
        print [] ;;
        print (GREEN ++ [CHECK_MARK]
                 ++ lit " Templates published successfully!" ++ RESET) ;;
        print (lit "View at: https://" ++ arg_registry args ++ [SLASH]
                 ++ arg_namespace args) ;;
        ret 0%Z
    else
      print (YELLOW ++ lit "[DRY RUN] Skipping actual publish" ++ RESET) ;;
      print (lit "Would run: devcontainer templates publish "
               ++ arg_target args ++ lit " -r " ++ arg_registry args
               ++ lit " -n " ++ arg_namespace args) ;;
      ret 0%Z.

End publish_templates.

(* ================================================================== *)
(** * A reference runtime

    An executable [Runtime], so that the scripts can be run on concrete
    manifests.  It follows the [json] module on ASCII files whose numbers
    are integers or one of [NaN], [Infinity], [-Infinity]: the writer
    is [json.dumps(data, indent=2)], the reader is [json.loads] in its
    default strict mode.  A file with a code unit above 127 is reported
    as undecodable and a number with a fraction or an exponent as
    malformed; [repr] of a container is exact on ASCII strings.  The
    message of a [JSONDecodeError] is the one of [json] when no value
    starts the text and when text follows the value; for an error
    inside a string, a list or an object it is "Expecting value" at
    the start of the text, where [json] names the kind of the error and
    its place.  The theorems below hold for every [Runtime]; this one
    runs the examples. *)

Module Reference.

Definition QUOTE : char := 34.
Definition BACKSLASH : char := 92.

Definition hex_digit (n : N) : char := if n <? 10 then 48 + n else 87 + n.

Definition hex4 (c : N) : str :=
  [ hex_digit (c / 4096 mod 16); hex_digit (c / 256 mod 16);
    hex_digit (c / 16 mod 16); hex_digit (c mod 16) ].

Definition u_escape (c : N) : str := BACKSLASH :: 117 :: hex4 c.

(** [ESCAPE_ASCII] of [json.encoder]. *)
Definition escape_char (c : char) : str :=
  if c =? QUOTE then [BACKSLASH; QUOTE]
  else if c =? BACKSLASH then [BACKSLASH; BACKSLASH]
  else if c =? 10 then [BACKSLASH; 110]
  else if c =? 13 then [BACKSLASH; 114]
  else if c =? 9 then [BACKSLASH; 116]
  else if c =? 12 then [BACKSLASH; 102]
  else if c =? 8 then [BACKSLASH; 98]
  else if (32 <=? c) && (c <=? 126) then [c]
  else if c <? 65536 then u_escape c
  else
    let n := c - 65536 in
    u_escape (55296 + n / 1024 mod 1024) ++ u_escape (56320 + n mod 1024).

Definition encode_str (s : str) : str :=
  QUOTE :: flat_map escape_char s ++ [QUOTE].

Definition encode_num (r : str) : str :=
  if str_eqb r (lit "nan") then lit "NaN"
  else if str_eqb r (lit "inf") then lit "Infinity"
  else if str_eqb r (lit "-inf") then lit "-Infinity"
  else r.

Definition newline_indent (level : nat) : str :=
  LF :: repeat 32 (2 * level).

Fixpoint dumps_at (level : nat) (v : value) : str :=
  match v with
  | VNone => lit "null"
  | VBool true => lit "true"
  | VBool false => lit "false"
  | VNum r => encode_num r
  | VStr s => encode_str s
  | VList [] => lit "[]"
  | VList items =>
      lit "[" ++ newline_indent (S level)
      ++ (fix each (l : list value) : str :=
            match l with
            | [] => []
            | [x] => dumps_at (S level) x
            | x :: rest =>
                dumps_at (S level) x ++ lit "," ++ newline_indent (S level)
                ++ each rest
            end) items
      ++ newline_indent level ++ lit "]"
  | VDict [] => lit "{}"
  | VDict items =>
      lit "{" ++ newline_indent (S level)
      ++ (fix each (l : list (str * value)) : str :=
            match l with
            | [] => []
            | [(k, x)] => encode_str k ++ lit ": " ++ dumps_at (S level) x
            | (k, x) :: rest =>
                encode_str k ++ lit ": " ++ dumps_at (S level) x
                ++ lit "," ++ newline_indent (S level) ++ each rest
            end) items
      ++ newline_indent level ++ lit "}"
  end.

Definition dumps_indent2 (v : value) : bytes := dumps_at 0 v.

(** The reader. *)

Definition is_ws (c : char) : bool :=
  (c =? 32) || (c =? 9) || (c =? 10) || (c =? 13).

Fixpoint skip_ws (s : str) : str :=
  match s with
  | c :: rest => if is_ws c then skip_ws rest else s
  | [] => []
  end.

Definition hex_value (c : char) : option N :=
  if (48 <=? c) && (c <=? 57) then Some (c - 48)
  else if (97 <=? c) && (c <=? 102) then Some (c - 87)
  else if (65 <=? c) && (c <=? 70) then Some (c - 55)
  else None.

Definition read_hex4 (s : str) : option (N * str) :=
  match s with
  | a :: b :: c :: d :: rest =>
      match hex_value a, hex_value b, hex_value c, hex_value d with
      | Some x, Some y, Some z, Some t =>
          Some (4096 * x + 256 * y + 16 * z + t, rest)
      | _, _, _, _ => None
      end
  | _ => None
  end.

Definition simple_escape (c : char) : option char :=
  if c =? QUOTE then Some QUOTE
  else if c =? BACKSLASH then Some BACKSLASH
  else if c =? 47 then Some 47
  else if c =? 98 then Some 8
  else if c =? 102 then Some 12
  else if c =? 110 then Some 10
  else if c =? 114 then Some 13
  else if c =? 116 then Some 9
  else None.

(** The text of a string after its opening quote, up to the closing
    one; a lone surrogate escape stays as the code point it names. *)
Fixpoint read_string (fuel : nat) (s : str) : option (str * str) :=
  match fuel with
  | O => None
  | S fuel =>
      match s with
      | [] => None
      | c :: rest =>
          if c =? QUOTE then Some ([], rest)
          else if c =? BACKSLASH then
            match rest with
            | [] => None
            | e :: rest' =>
                if e =? 117 then
                  match read_hex4 rest' with
                  | None => None
                  | Some (hi, after) =>
                      let pair :=
                        if (55296 <=? hi) && (hi <=? 56319) then
                          match after with
                          | b :: u :: after' =>
                              if (b =? BACKSLASH) && (u =? 117) then
                                match read_hex4 after' with
                                | Some (lo, after'') =>
                                    if (56320 <=? lo) && (lo <=? 57343)
                                    then
                                      Some (65536 + (hi - 55296) * 1024
                                              + (lo - 56320), after'')
                                    else None
                                | None => None
                                end
                              else None
                          | _ => None
                          end
                        else None in
                      let (cp, next) :=
                        match pair with
                        | Some r => r
                        | None => (hi, after)
                        end in
                      match read_string fuel next with
                      | Some (t, tl) => Some (cp :: t, tl)
                      | None => None
                      end
                  end
                else
                  match simple_escape e with
                  | None => None
                  | Some x =>
                      match read_string fuel rest' with
                      | Some (t, tl) => Some (x :: t, tl)
                      | None => None
                      end
                  end
            end
          else if c <? 32 then None
          else
            match read_string fuel rest with
            | Some (t, tl) => Some (c :: t, tl)
            | None => None
            end
      end
  end.

Fixpoint span_ascii_digits (s : str) : str * str :=
  match s with
  | c :: rest =>
      if (48 <=? c) && (c <=? 57)
      then let (d, tl) := span_ascii_digits rest in (c :: d, tl)
      else ([], s)
  | [] => ([], [])
  end.

(** An integer literal, as the [repr] of the [int] it denotes. *)
Definition read_int (negative : bool) (s : str) : option (value * str) :=
  match span_ascii_digits s with
  | ([], _) => None
  | (d :: ds, rest) =>
      let digits := if d =? 48 then [d] else d :: ds in
      let rest := if d =? 48 then ds ++ rest else rest in
      match rest with
      | c :: _ =>
          if (c =? DOT) || (c =? 101) || (c =? 69) then None
          else
            Some (VNum (if negative && negb (d =? 48)
                        then 45 :: digits else digits), rest)
      | [] =>
          Some (VNum (if negative && negb (d =? 48)
                      then 45 :: digits else digits), rest)
      end
  end.

Fixpoint strip_prefix (prefix s : str) : option str :=
  match prefix, s with
  | [], _ => Some s
  | p :: prefix', c :: s' => if p =? c then strip_prefix prefix' s' else None
  | _ :: _, [] => None
  end.

Fixpoint read_value (fuel : nat) (s : str) : option (value * str) :=
  match fuel with
  | O => None
  | S fuel =>
      match s with
      | [] => None
      | c :: rest =>
          if c =? QUOTE then
            match read_string (S (List.length rest)) rest with
            | Some (t, tl) => Some (VStr t, tl)
            | None => None
            end
          else if c =? 91 then
            match skip_ws rest with
            | c' :: rest' =>
                if c' =? 93 then Some (VList [], rest')
                else
                  (fix items (n : nat) (s : str) (acc : list value)
                     : option (value * str) :=
                     match n with
                     | O => None
                     | S n =>
                         match read_value fuel (skip_ws s) with
                         | None => None
                         | Some (v, tl) =>
                             match skip_ws tl with
                             | d :: tl' =>
                                 if d =? 44 then items n tl' (acc ++ [v])
                                 else if d =? 93
                                 then Some (VList (acc ++ [v]), tl')
                                 else None
                             | [] => None
                             end
                         end
                     end) fuel rest []
            | [] => None
            end
          else if c =? 123 then
            match skip_ws rest with
            | c' :: rest' =>
                if c' =? 125 then Some (VDict [], rest')
                else
                  (fix members (n : nat) (s : str)
                       (acc : list (str * value)) : option (value * str) :=
                     match n with
                     | O => None
                     | S n =>
                         match skip_ws s with
                         | q :: s1 =>
                             if q =? QUOTE then
                               match read_string (S (List.length s1)) s1 with
                               | None => None
                               | Some (k, s2) =>
                                   match skip_ws s2 with
                                   | colon :: s3 =>
                                       if colon =? 58 then
                                         match read_value fuel (skip_ws s3) with
                                         | None => None
                                         | Some (v, tl) =>
                                             match skip_ws tl with
                                             | d :: tl' =>
                                                 if d =? 44 then
                                                   members n tl'
                                                     (assoc_set k v acc)
                                                 else if d =? 125 then
                                                   Some (VDict (assoc_set k v acc), tl')
                                                 else None
                                             | [] => None
                                             end
                                         end
                                       else None
                                   | [] => None
                                   end
                               end
                             else None
                         | [] => None
                         end
                     end) fuel rest []
            | [] => None
            end
          else if c =? 45 then
            match strip_prefix (lit "Infinity") rest with
            | Some tl => Some (VNum (lit "-inf"), tl)
            | None => read_int true rest
            end
          else if (48 <=? c) && (c <=? 57) then read_int false s
          else
            match strip_prefix (lit "null") s with
            | Some tl => Some (VNone, tl)
            | None =>
            match strip_prefix (lit "true") s with
            | Some tl => Some (VBool true, tl)
            | None =>
            match strip_prefix (lit "false") s with
            | Some tl => Some (VBool false, tl)
            | None =>
            match strip_prefix (lit "NaN") s with
            | Some tl => Some (VNum (lit "nan"), tl)
            | None =>
            match strip_prefix (lit "Infinity") s with
            | Some tl => Some (VNum (lit "inf"), tl)
            | None => None
            end end end end end
      end
  end.

(** [JSONDecodeError(msg, doc, pos)]: the message with the line, the
    column and the index of the character at [pos]. *)
Definition decode_error (msg : string) (doc : str) (pos : nat) : exn :=
  let before := firstn pos doc in
  let lineno := S (List.length (filter (N.eqb LF) before)) in
  let colno :=
    S (List.length
          ((fix tail (l acc : str) : str :=
              match l with
              | [] => acc
              | c :: rest => tail rest (if c =? LF then [] else acc ++ [c])
              end) before [])) in
  Exn JSONDecodeError
      (lit msg ++ lit ": line " ++ str_of_int (N.of_nat lineno)
           ++ lit " column " ++ str_of_int (N.of_nat colno)
           ++ lit " (char " ++ str_of_int (N.of_nat pos) ++ lit ")").

Definition loads (text : bytes) : result value :=
  if negb (forallb (fun c => c <? 128) text) then
    Raise (Exn UnicodeDecodeError (lit "codec can't decode byte"))
  else
    let start := skip_ws text in
    match read_value (S (List.length text)) start with
    | Some (v, tl) =>
        match skip_ws tl with
        | [] => Return v
        | rest =>
            Raise (decode_error "Extra data" text
                     (List.length text - List.length rest))
        end
    | None =>
        Raise (decode_error "Expecting value" text
                 (List.length text - List.length start))
    end.

(** [repr] *)

Definition APOSTROPHE : char := 39.

Definition repr_char (quote : char) (c : char) : str :=
  if (c =? quote) || (c =? BACKSLASH) then [BACKSLASH; c]
  else if c =? 10 then [BACKSLASH; 110]
  else if c =? 13 then [BACKSLASH; 114]
  else if c =? 9 then [BACKSLASH; 116]
  else if (32 <=? c) && (c <=? 126) then [c]
  else if c <? 256 then
    [BACKSLASH; 120; hex_digit (c / 16 mod 16); hex_digit (c mod 16)]
  else if c <? 65536 then u_escape c
  else BACKSLASH :: 85 :: hex4 (c / 65536) ++ hex4 (c mod 65536).

Definition repr_str (s : str) : str :=
  let quote :=
    if existsb (N.eqb APOSTROPHE) s && negb (existsb (N.eqb QUOTE) s)
    then QUOTE else APOSTROPHE in
  quote :: flat_map (repr_char quote) s ++ [quote].

Fixpoint repr_value (v : value) : str :=
  match v with
  | VNone => lit "None"
  | VBool true => lit "True"
  | VBool false => lit "False"
  | VNum r => r
  | VStr s => repr_str s
  | VList items =>
      lit "["
      ++ (fix each (l : list value) : str :=
            match l with
            | [] => []
            | [x] => repr_value x
            | x :: rest => repr_value x ++ lit ", " ++ each rest
            end) items
      ++ lit "]"
  | VDict items =>
      lit "{"
      ++ (fix each (l : list (str * value)) : str :=
            match l with
            | [] => []
            | [(k, x)] => repr_str k ++ lit ": " ++ repr_value x
            | (k, x) :: rest =>
                repr_str k ++ lit ": " ++ repr_value x ++ lit ", "
                ++ each rest
            end) items
      ++ lit "}"
  end.

Definition runtime : Runtime :=
  {| json_load := loads; json_dump := dumps_indent2; repr := repr_value |}.

End Reference.

(* ================================================================== *)
(** * Vocabulary of the properties *)

(** One or more decimal digits, as [\d+] reads them. *)
Definition digits (d : str) : Prop :=
  d <> [] /\ Forall (fun c => is_decimal c = true) d.

(** Where a run of digits stops: at the end, or at a character that is
    not a digit. *)
Definition stops (r : str) : Prop :=
  match r with [] => True | c :: _ => is_decimal c = false end.

(** What the pattern accepts: three groups of digits with a dot after
    the first and the second, and after the third group either nothing
    or one line feed. *)
Definition semver_text (s g1 g2 g3 : str) : Prop :=
  digits g1 /\ digits g2 /\ digits g3 /\
  (s = g1 ++ DOT :: g2 ++ DOT :: g3 \/
   s = g1 ++ DOT :: g2 ++ DOT :: g3 ++ [LF]).

(** The specification's format of a version: three groups of one or
    more of the digits 0-9, separated by dots, and nothing else. *)
Definition ascii_digits (g : str) : Prop :=
  g <> [] /\ Forall (fun c => 48 <= c <= 57) g.


(** A text of at most 4300 characters: [int] reads it when it is made
    of digits. *)
Definition within_limit (g : str) : Prop :=
  N.of_nat (List.length g) <= INT_MAX_STR_DIGITS.

(** The number of digits of the decimal numeral of an integer, and the
    integers that [str] prints: those of at most 4300 digits. *)
Definition decimal_digits (n : N) : N := N.of_nat (List.length (str_of_int n)).

Definition printable (n : N) : Prop := decimal_digits n <= INT_MAX_STR_DIGITS.

(** The three levels of the command line. *)
Definition valid_level (level : str) : Prop :=
  level = lit "patch" \/ level = lit "minor" \/ level = lit "major".


(** [p <= q] *)
Definition path_le (p q : path) : Prop := path_ltb q p = false.


Fixpoint distinct (names : list str) : bool :=
  match names with
  | [] => true
  | x :: rest => negb (existsb (str_eqb x) rest) && distinct rest
  end.

(** Names inside one directory are unique, at every level of the tree. *)
Fixpoint unique_names (n : node) : bool :=
  match n with
  | Dir entries =>
      distinct (map fst entries)
      && (fix all (es : list (str * node)) : bool :=
            match es with
            | [] => true
            | (_, child) :: rest => unique_names child && all rest
            end) entries
  | _ => true
  end.

(** A regular file of the manifest name somewhere below [target]. *)
Definition manifest_file_below (root : node) (target p : path) : Prop :=
  exists rel, p = target ++ rel ++ [MANIFEST] /\ is_file root p = true.


(** The three errors of the locator, as the specification names them. *)
Definition TargetNotFound (target : path) : exn :=
  Exn FileNotFoundError (lit "Target not found: " ++ path_str target).

Definition NoTemplatesFound (target : path) : exn :=
  Exn ValueError (lit "No templates found in " ++ path_str target).

Definition InvalidTarget (target : path) : exn :=
  Exn ValueError (lit "Invalid target: " ++ path_str target).

(** A decimal numeral as [str] prints a non-negative integer: digits
    0-9, and no zero in front unless it is the numeral ["0"]. *)
Definition canonical_number (g : str) : Prop :=
  ascii_digits g /\ forall rest, g = 48 :: rest -> rest = [].

(** The canonical string of three numbers: their decimal numerals,
    none with a zero in front, separated by two dots. *)
Definition canonical_version (major minor patch : N) (s : str) : Prop :=
  exists g1 g2 g3,
    s = g1 ++ DOT :: g2 ++ DOT :: g3
    /\ canonical_number g1 /\ canonical_number g2 /\ canonical_number g3
    /\ int_of_digits g1 = major /\ int_of_digits g2 = minor
    /\ int_of_digits g3 = patch.

(** The statement of the specification for the level "patch": every
    version that parses is incremented. *)
Definition patch_always_increments : Prop :=
  forall (version : str) (major minor patch : N),
    parse_version version = Return (major, minor, patch) ->
    exists s,
      increment_version version (lit "patch") = Return s
      /\ canonical_version major minor (patch + 1) s.

(** Two trees hold the same entries: every path names the same kind
    of thing in both.  The order in which a directory lists its entries
    is left free. *)
Definition same_entries (root1 root2 : node) : Prop :=
  forall p,
    path_exists root1 p = path_exists root2 p
    /\ is_file root1 p = is_file root2 p
    /\ is_dir root1 p = is_dir root2 p.

(** The temporary file of a manifest is its sibling
    [devcontainer-template.tmp]. *)
Definition TEMP_NAME : str := lit "devcontainer-template.tmp".




(** How many updates of a batch failed. *)
Fixpoint failures (oks : list bool) : N :=
  match oks with
  | [] => 0
  | ok :: rest => (if negb ok then 1 else 0) + failures rest
  end.

Section Batch.
Context `{Runtime}.

(** The results of the updates of a batch, in the order [main] runs
    them, and the world after the last. *)
Fixpoint batch_results (templates : list path) (level : str) (dry_run : bool)
    (w : world) : list bool * world :=
  match templates with
  | [] => ([], w)
  | template :: rest =>
      let (r, w1) := update_template_version template level dry_run w in
      let ok := match r with Return ok => ok | Raise _ => false end in
      let (oks, w2) := batch_results rest level dry_run (add_stdout w1 []) in
      (ok :: oks, w2)
  end.

End Batch.

(** The status a result of [main] ends the process with. *)
Definition status_of (r : result Z) : Z :=
  match r with Return code => code | Raise _ => 1%Z end.

(* ================================================================== *)
(** * Weakest preconditions *)

(** [wp m w Q]: running [m] in [w] ends in a result and a world that
    satisfy [Q]. *)
Definition wp {A : Type} (m : M A) (w : world)
    (Q : result A -> world -> Prop) : Prop :=
  Q (fst (m w)) (snd (m w)).

(** What [take_fault] leaves: the world itself when no fault is
    planned, otherwise the world with the plan advanced. *)
Inductive after_fault (w : world) : option nat -> world -> Prop :=
| fault_free : faults w = [] -> after_fault w None w
| fault_next f rest :
    faults w = f :: rest -> after_fault w f (with_faults w rest).

(* ================================================================== *)
(** * Inputs of the examples *)

(** An ASCII literal in which an apostrophe stands for a double quote,
    to write JSON text. *)
Definition quoted (s : string) : str :=
  map (fun c => if c =? 39 then 34 else c) (lit s).

(** A version whose patch number is 4300 nines: the largest that
    [int] reads, and one more has a digit too many for [str]. *)
Definition nines : str := repeat 57 4300.

Definition longest_version : str := lit "0.0." ++ nines.

(** The manifest of the test suite. *)
Definition example_manifest : bytes := quoted "{'id':'t','version':'1.0.0'}".


(** One template, [src/t], with a given manifest. *)
Definition one_template (content : bytes) : node :=
  Dir [ (lit "src", Dir [ (lit "t", Dir [ (MANIFEST, File content) ]) ]) ].

Definition example_path : path := [lit "src"; lit "t"; MANIFEST].

(** Two templates whose directory names differ by a suffix that starts
    with a hyphen. *)
Definition two_templates : node :=
  Dir [ (lit "src",
         Dir [ (lit "nanodev", Dir [(MANIFEST, File example_manifest)]);
               (lit "nanodev-node", Dir [(MANIFEST, File example_manifest)]) ]) ].

(** [two_templates], its directory listed the other way round. *)
Definition two_templates_backwards : node :=
  Dir [ (lit "src",
         Dir [ (lit "nanodev-node", Dir [(MANIFEST, File example_manifest)]);
               (lit "nanodev", Dir [(MANIFEST, File example_manifest)]) ]) ].

(** A directory that bears the manifest name and holds nothing. *)
Definition manifest_named_directory : node :=
  Dir [ (lit "src", Dir [ (MANIFEST, Dir []) ]) ].

(** Encodings of the console: UTF-8 has every code point but the
    surrogates, ASCII the first 128. *)
Definition utf8_stdout (c : char) : bool :=
  negb ((55296 <=? c) && (c <=? 57343)).

Definition ascii_stdout (c : char) : bool := c <? 128.

(** A world with nothing printed, no fault planned and children that
    all succeed. *)
Definition quiet (encodes : char -> bool) (root : node) : world :=
  World root [] [] encodes [] (fun _ => Exited 0 []) [].

(** A manifest without a version. *)
Definition versionless_manifest : bytes := quoted "{'id':'t'}".


Definition example_world : world :=
  quiet utf8_stdout (one_template example_manifest).

(** A publish run that asks for the bump step, and children of which
    the interpreter alone fails. *)
Definition example_publish : publish_templates.publish_args :=
  publish_templates.PublishArgs
    (lit "./src") true (lit "patch") (lit "owner/repo") (lit "ghcr.io") false
    (lit "python3") (lit "/repo/scripts").

Definition failing_bump (argv : list str) : child_result :=
  if str_eqb (hd [] argv) (lit "python3") then Exited 1 [] else Exited 0 [].

(* ================================================================== *)
(** * Properties of the version engine *)

Lemma str_eqb_eq (a b : str) : str_eqb a b = true <-> a = b.
Proof.
  unfold str_eqb. destruct (list_eq_dec N.eq_dec a b); split; congruence.
Qed.

Lemma str_eqb_refl (a : str) : str_eqb a a = true.
Proof. apply str_eqb_eq. reflexivity. Qed.

Lemma str_eqb_neq (a b : str) : str_eqb a b = false <-> a <> b.
Proof.
  unfold str_eqb. destruct (list_eq_dec N.eq_dec a b); split; congruence.
Qed.

Lemma dot_not_decimal : is_decimal DOT = false.
Proof. reflexivity. Qed.

Lemma lf_not_decimal : is_decimal LF = false.
Proof. reflexivity. Qed.

Lemma span_digits_sound (s d r : str) :
  span_digits s = (d, r) ->
  s = d ++ r /\ Forall (fun c => is_decimal c = true) d /\ stops r.
Proof.
  revert d r. induction s as [|c s IH]; intros d r; simpl.
  - intros [= <- <-]. repeat split; constructor.
  - destruct (is_decimal c) eqn:Hc.
    + destruct (span_digits s) as [d' r'] eqn:Hs. intros [= <- <-].
      destruct (IH _ _ eq_refl) as (-> & Hd & Hr).
      repeat split; auto.
    + intros [= <- <-]. repeat split; auto.
Qed.

Lemma span_digits_complete (d r : str) :
  Forall (fun c => is_decimal c = true) d -> stops r ->
  span_digits (d ++ r) = (d, r).
Proof.
  intros Hd Hr. induction Hd as [|c d Hc Hd IH]; simpl.
  - destruct r as [|c r]; [reflexivity|].
    simpl in Hr. simpl. rewrite Hr. reflexivity.
  - rewrite Hc, IH. reflexivity.
Qed.

Lemma match_group_spec (s d r : str) :
  match_group s = Some (d, r) <-> s = d ++ r /\ digits d /\ stops r.
Proof.
  unfold match_group, digits. split.
  - destruct (span_digits s) as [d' r'] eqn:Hs.
    apply span_digits_sound in Hs. destruct Hs as (-> & Hd & Hr).
    destruct d' as [|c d']; [discriminate|]. intros [= <- <-].
    repeat split; auto. discriminate.
  - intros (-> & (Hne & Hd) & Hr).
    rewrite (span_digits_complete d r Hd Hr).
    destruct d; [congruence | reflexivity].
Qed.

Lemma match_dot_spec (s r : str) : match_dot s = Some r <-> s = DOT :: r.
Proof.
  unfold match_dot. destruct s as [|c s].
  - split; discriminate.
  - destruct (N.eqb_spec c DOT) as [->|Hne]; split; intros Heq.
    + congruence.
    + injection Heq as <-. reflexivity.
    + discriminate.
    + injection Heq as Hc _. contradiction.
Qed.

Lemma match_dot_dot (r : str) : match_dot (DOT :: r) = Some r.
Proof. reflexivity. Qed.

Lemma match_end_spec (s : str) : match_end s = true <-> s = [] \/ s = [LF].
Proof.
  unfold match_end. destruct s as [|c [|c' s]].
  - split; auto.
  - rewrite N.eqb_eq. split.
    + intros ->. right. reflexivity.
    + intros [Hs|Hs]; [discriminate | injection Hs as Hs; exact Hs].
  - split; [discriminate | intros [Hs|Hs]; discriminate].
Qed.

Lemma stops_dot (r : str) : stops (DOT :: r).
Proof. exact dot_not_decimal. Qed.

Lemma re_match_semver_spec (s g1 g2 g3 : str) :
  re_match_semver s = Some (g1, g2, g3) <-> semver_text s g1 g2 g3.
Proof.
  unfold re_match_semver, semver_text. split.
  - destruct (match_group s) as [[a s1]|] eqn:H1; [|discriminate].
    destruct (match_dot s1) as [s2|] eqn:H2; [|discriminate].
    destruct (match_group s2) as [[b s3]|] eqn:H3; [|discriminate].
    destruct (match_dot s3) as [s4|] eqn:H4; [|discriminate].
    destruct (match_group s4) as [[c s5]|] eqn:H5; [|discriminate].
    destruct (match_end s5) eqn:H6; [|discriminate].
    intros [= <- <- <-].
    apply match_group_spec in H1, H3, H5.
    apply match_dot_spec in H2, H4. apply match_end_spec in H6.
    destruct H1 as (-> & Ha & _), H3 as (-> & Hb & _), H5 as (-> & Hc & _).
    subst s1 s3. split; [exact Ha|]. split; [exact Hb|]. split; [exact Hc|].
    destruct H6 as [-> | ->]; [left | right]; rewrite ?app_nil_r; reflexivity.
  - intros (Ha & Hb & Hc & Hs).
    assert (Hend : exists tl, (tl = [] \/ tl = [LF]) /\
                     s = g1 ++ DOT :: g2 ++ DOT :: g3 ++ tl).
    { destruct Hs as [-> | ->]; [exists [] | exists [LF]];
        rewrite ?app_nil_r; split; auto. }
    destruct Hend as (tl & Htl & ->).
    assert (E1 : match_group (g1 ++ DOT :: g2 ++ DOT :: g3 ++ tl)
                 = Some (g1, DOT :: g2 ++ DOT :: g3 ++ tl)).
    { apply match_group_spec. split; [reflexivity|]. split; [exact Ha|].
      apply stops_dot. }
    rewrite E1, match_dot_dot.
    assert (E2 : match_group (g2 ++ DOT :: g3 ++ tl)
                 = Some (g2, DOT :: g3 ++ tl)).
    { apply match_group_spec. split; [reflexivity|]. split; [exact Hb|].
      apply stops_dot. }
    rewrite E2, match_dot_dot.
    assert (E3 : match_group (g3 ++ tl) = Some (g3, tl)).
    { apply match_group_spec. split; [reflexivity|]. split; [exact Hc|].
      destruct Htl as [-> | ->]; [exact I | exact lf_not_decimal]. }
    rewrite E3.
    assert (E4 : match_end tl = true) by (apply match_end_spec; exact Htl).
    rewrite E4. reflexivity.
Qed.

(** ** The limit of the conversions *)

Lemma python_int_returns (s : str) (n : N) :
  python_int s = Return n <-> within_limit s /\ n = int_of_digits s.
Proof.
  unfold python_int, within_limit.
  destruct (N.ltb_spec INT_MAX_STR_DIGITS (N.of_nat (List.length s)))
    as [Hlong | Hshort]; split.
  - discriminate.
  - intros [Hs _]. lia.
  - intros [= <-]. auto.
  - intros [_ ->]. reflexivity.
Qed.

Lemma python_int_raises (s : str) (e : exn) :
  python_int s = Raise e <->
  ~ within_limit s /\ e = int_limit_error (N.of_nat (List.length s)).
Proof.
  unfold python_int, within_limit.
  destruct (N.ltb_spec INT_MAX_STR_DIGITS (N.of_nat (List.length s)))
    as [Hlong | Hshort]; split.
  - intros [= <-]. split; [lia | reflexivity].
  - intros [_ ->]. reflexivity.
  - discriminate.
  - intros [Hs _]. contradiction.
Qed.

Lemma python_str_returns (n : N) (s : str) :
  python_str n = Return s <-> printable n /\ s = str_of_int n.
Proof.
  unfold python_str, printable, decimal_digits.
  destruct (N.ltb_spec INT_MAX_STR_DIGITS
              (N.of_nat (List.length (str_of_int n)))) as [Hlong | Hshort];
    split.
  - discriminate.
  - intros [Hs _]. lia.
  - intros [= <-]. auto.
  - intros [_ ->]. reflexivity.
Qed.

Lemma python_str_raises (n : N) (e : exn) :
  python_str n = Raise e <-> ~ printable n /\ e = str_limit_error.
Proof.
  unfold python_str, printable, decimal_digits.
  destruct (N.ltb_spec INT_MAX_STR_DIGITS
              (N.of_nat (List.length (str_of_int n)))) as [Hlong | Hshort];
    split.
  - intros [= <-]. split; [lia | reflexivity].
  - intros [_ ->]. reflexivity.
  - discriminate.
  - intros [Hs _]. contradiction.
Qed.

Lemma python_str_printable (n : N) :
  printable n -> python_str n = Return (str_of_int n).
Proof. intros Hn. apply python_str_returns. auto. Qed.

Lemma python_str_too_long (n : N) :
  ~ printable n -> python_str n = Raise str_limit_error.
Proof. intros Hn. apply python_str_raises. auto. Qed.

(** ** Numerals and their values *)

Lemma int_of_digits_revapp (u a : Decimal.uint) :
  fold_left digit_step (uint_digits u) (DecimalPos.Unsigned.of_lu a)
  = DecimalPos.Unsigned.of_lu (Decimal.revapp u a).
Proof.
  revert a.
  induction u; intros a; cbn [uint_digits fold_left Decimal.revapp];
    try reflexivity; rewrite <- IHu; f_equal;
    match goal with
    | |- _ = DecimalPos.Unsigned.of_lu ?d =>
        rewrite (DecimalPos.Unsigned.of_lu_eqn d)
    end;
    cbn [DecimalPos.Unsigned.hd DecimalPos.Unsigned.tl];
    unfold digit_step;
    match goal with
    | |- context [decimal_value ?c] =>
        let v := eval vm_compute in (decimal_value c) in
        change (decimal_value c) with v
    end; cbv beta iota; lia.
Qed.

Lemma int_of_str_of_int (n : N) : int_of_digits (str_of_int n) = n.
Proof.
  unfold int_of_digits, str_of_int.
  change 0 with (DecimalPos.Unsigned.of_lu Decimal.Nil).
  rewrite int_of_digits_revapp.
  change (Decimal.revapp (N.to_uint n) Decimal.Nil) with (Decimal.rev (N.to_uint n)).
  rewrite <- DecimalPos.Unsigned.of_uint_alt.
  apply DecimalN.Unsigned.of_to.
Qed.

Lemma uint_digits_decimal (u : Decimal.uint) :
  Forall (fun c => is_decimal c = true) (uint_digits u).
Proof. induction u; simpl; constructor; auto. Qed.

Lemma str_of_int_digits (n : N) : digits (str_of_int n).
Proof.
  split; [|apply uint_digits_decimal].
  unfold str_of_int. destruct n as [|p]; [discriminate|].
  simpl. pose proof (DecimalPos.Unsigned.to_uint_nonnil p) as Hnil.
  destruct (Pos.to_uint p); simpl; congruence.
Qed.

Lemma nzhead_no_zero (u v : Decimal.uint) :
  Decimal.nzhead u <> Decimal.D0 v.
Proof. induction u; simpl; try discriminate. exact IHu. Qed.

Lemma uint_digits_ascii_digits (u : Decimal.uint) :
  Forall (fun c => 48 <= c <= 57) (uint_digits u).
Proof. induction u; simpl; constructor; auto; lia. Qed.

Lemma to_uint_normal (n : N) : Decimal.unorm (N.to_uint n) = N.to_uint n.
Proof.
  rewrite <- DecimalN.Unsigned.to_of, DecimalN.Unsigned.of_to. reflexivity.
Qed.

Lemma str_of_int_canonical (n : N) : canonical_number (str_of_int n).
Proof.
  unfold canonical_number, ascii_digits, str_of_int.
  pose proof (to_uint_normal n) as Hnorm.
  split; [split; [|apply uint_digits_ascii_digits]|].
  - destruct (N.to_uint n); simpl; discriminate.
  - intros rest Hrest.
    destruct (N.to_uint n) as [|u|u|u|u|u|u|u|u|u|u] eqn:Hu;
      simpl in Hrest; try discriminate Hrest.
    injection Hrest as <-.
    unfold Decimal.unorm in Hnorm. simpl in Hnorm.
    destruct (Decimal.nzhead u) eqn:Hz; try discriminate Hnorm.
    + injection Hnorm as <-. reflexivity.
    + exfalso. injection Hnorm as Hnorm. subst u.
      exact (nzhead_no_zero _ _ Hz).
Qed.

Lemma decimal_value_lt (c : char) (d : N) :
  decimal_value c = Some d -> d < 10.
Proof.
  unfold decimal_value. destruct (find (in_block c) decimal_blocks);
    [|discriminate].
  intros [= <-]. apply N.mod_lt. discriminate.
Qed.

Lemma digit_step_bounds (acc : N) (c : char) :
  10 * acc <= digit_step acc c <= 10 * acc + 9.
Proof.
  unfold digit_step. destruct (decimal_value c) as [d|] eqn:Hd;
    [apply decimal_value_lt in Hd|]; lia.
Qed.

Lemma pow10_length_cons (c : char) (s : str) :
  10 ^ N.of_nat (List.length (c :: s)) = 10 * 10 ^ N.of_nat (List.length s).
Proof.
  cbn [List.length]. rewrite Nat2N.inj_succ, N.pow_succ_r'. reflexivity.
Qed.

(** A string of [k] digits denotes a number below [10 ^ k]. *)
Lemma value_upper (s : str) (acc : N) :
  fold_left digit_step s acc + 1
  <= (acc + 1) * 10 ^ N.of_nat (List.length s).
Proof.
  revert acc. induction s as [|c s IH]; intros acc.
  - cbn. lia.
  - rewrite pow10_length_cons. cbn [fold_left].
    specialize (IH (digit_step acc c)).
    pose proof (digit_step_bounds acc c) as Hstep.
    remember (10 ^ N.of_nat (List.length s)) as P.
    remember (fold_left digit_step s (digit_step acc c)) as X.
    remember (digit_step acc c) as D.
    nia.
Qed.

Lemma value_lower (s : str) (acc : N) :
  acc * 10 ^ N.of_nat (List.length s) <= fold_left digit_step s acc.
Proof.
  revert acc. induction s as [|c s IH]; intros acc.
  - cbn. lia.
  - rewrite pow10_length_cons. cbn [fold_left].
    specialize (IH (digit_step acc c)).
    pose proof (digit_step_bounds acc c) as Hstep.
    remember (10 ^ N.of_nat (List.length s)) as P.
    remember (fold_left digit_step s (digit_step acc c)) as X.
    remember (digit_step acc c) as D.
    nia.
Qed.

Lemma int_of_digits_lt (s : str) :
  int_of_digits s < 10 ^ N.of_nat (List.length s).
Proof.
  unfold int_of_digits. pose proof (value_upper s 0) as Hs. lia.
Qed.

Lemma ascii_digit_value (c : char) :
  48 <= c <= 57 -> decimal_value c = Some (c - 48).
Proof.
  intros Hc.
  assert (Hcases : c = 48 \/ c = 49 \/ c = 50 \/ c = 51 \/ c = 52 \/
                   c = 53 \/ c = 54 \/ c = 55 \/ c = 56 \/ c = 57) by lia.
  repeat (destruct Hcases as [-> | Hcases]; [reflexivity|]).
  subst c. reflexivity.
Qed.

(** An integer below [10 ^ k] has [k] digits at most, and conversely. *)
Lemma decimal_digits_le (n k : N) :
  k <> 0 -> n < 10 ^ k -> decimal_digits n <= k.
Proof.
  intros Hk Hn. unfold decimal_digits.
  pose proof (int_of_str_of_int n) as Hvalue.
  destruct (str_of_int_canonical n) as [[Hne Hall] Hzero].
  destruct (str_of_int n) as [|c g]; [congruence|].
  inversion Hall as [|c' g' Hc Hg]; subst c' g'.
  destruct (N.eq_dec c 48) as [-> | Hc48].
  - rewrite (Hzero g eq_refl). cbn. lia.
  - unfold int_of_digits in Hvalue. cbn [fold_left] in Hvalue.
    pose proof (value_lower g (digit_step 0 c)) as Hlow.
    rewrite Hvalue in Hlow.
    assert (Hstep : 1 <= digit_step 0 c).
    { unfold digit_step. rewrite (ascii_digit_value c Hc). lia. }
    assert (Hpow : 10 ^ N.of_nat (List.length g) < 10 ^ k).
    { remember (10 ^ N.of_nat (List.length g)) as P.
      remember (digit_step 0 c) as D. nia. }
    apply N.pow_lt_mono_r_iff in Hpow; [|lia].
    cbn [List.length]. rewrite Nat2N.inj_succ. lia.
Qed.

Lemma decimal_digits_lt (n k : N) : decimal_digits n <= k -> n < 10 ^ k.
Proof.
  intros Hn. unfold decimal_digits in Hn.
  pose proof (int_of_digits_lt (str_of_int n)) as Hlt.
  rewrite int_of_str_of_int in Hlt.
  apply N.lt_le_trans with (1 := Hlt).
  apply N.pow_le_mono_r; [discriminate | exact Hn].
Qed.

(** What [int] read, [str] prints. *)
Lemma value_printable (g : str) :
  g <> [] -> within_limit g -> printable (int_of_digits g).
Proof.
  intros Hne Hg. unfold printable, within_limit in *.
  apply N.le_trans with (2 := Hg).
  apply decimal_digits_le; [|apply int_of_digits_lt].
  destruct g; [congruence|]. cbn [List.length]. rewrite Nat2N.inj_succ. lia.
Qed.


Lemma printable_0 : printable 0.
Proof. unfold printable, decimal_digits, INT_MAX_STR_DIGITS. cbn. lia. Qed.

(** ** [parse_version] *)

(** [parse_version] returns exactly on the texts the pattern accepts
    whose groups have 4300 digits at most, with the values of the three
    groups. *)
Lemma parse_version_returns_iff (s : str) (major minor patch : N) :
  parse_version s = Return (major, minor, patch) <->
  exists g1 g2 g3,
    semver_text s g1 g2 g3 /\
    (within_limit g1 /\ within_limit g2 /\ within_limit g3) /\
    major = int_of_digits g1 /\ minor = int_of_digits g2 /\
    patch = int_of_digits g3.
Proof.
  unfold parse_version. split.
  - destruct (re_match_semver s) as [[[g1 g2] g3]|] eqn:Hm; [|discriminate].
    destruct (python_int g1) as [a|e] eqn:H1; [|discriminate].
    destruct (python_int g2) as [b|e] eqn:H2; [|discriminate].
    destruct (python_int g3) as [c|e] eqn:H3; [|discriminate].
    intros [= <- <- <-]. exists g1, g2, g3.
    apply re_match_semver_spec in Hm.
    apply python_int_returns in H1, H2, H3. tauto.
  - intros (g1 & g2 & g3 & Hm & (H1 & H2 & H3) & -> & -> & ->).
    apply re_match_semver_spec in Hm. rewrite Hm.
    rewrite (proj2 (python_int_returns g1 _) (conj H1 eq_refl)).
    rewrite (proj2 (python_int_returns g2 _) (conj H2 eq_refl)).
    rewrite (proj2 (python_int_returns g3 _) (conj H3 eq_refl)).
    reflexivity.
Qed.

Lemma parse_version_raises (s : str) :
  (forall g1 g2 g3, ~ semver_text s g1 g2 g3) ->
  parse_version s
  = Raise (Exn ValueError (lit "Invalid semver format: " ++ s)).
Proof.
  intros Hno. unfold parse_version.
  destruct (re_match_semver s) as [[[g1 g2] g3]|] eqn:Hm; [|reflexivity].
  apply re_match_semver_spec in Hm. destruct (Hno _ _ _ Hm).
Qed.

(** The numbers [parse_version] returns are printed by [str]. *)
Lemma parsed_printable (s : str) (major minor patch : N) :
  parse_version s = Return (major, minor, patch) ->
  printable major /\ printable minor /\ printable patch.
Proof.
  intros Hparse. apply parse_version_returns_iff in Hparse.
  destruct Hparse as (g1 & g2 & g3 & (Hd1 & Hd2 & Hd3 & _) & (H1 & H2 & H3)
                      & -> & -> & ->).
  repeat split; apply value_printable; try assumption;
    [apply Hd1 | apply Hd2 | apply Hd3].
Qed.

(** ** [format_version] *)

Lemma format_version_returns (major minor patch : N) (s : str) :
  format_version major minor patch = Return s <->
  (printable major /\ printable minor /\ printable patch)
  /\ s = str_of_int major ++ [DOT] ++ str_of_int minor ++ [DOT]
           ++ str_of_int patch.
Proof.
  unfold format_version. split.
  - destruct (python_str major) as [a|e] eqn:H1; [|discriminate].
    destruct (python_str minor) as [b|e] eqn:H2; [|discriminate].
    destruct (python_str patch) as [c|e] eqn:H3; [|discriminate].
    intros [= <-]. apply python_str_returns in H1, H2, H3.
    destruct H1 as [? ->], H2 as [? ->], H3 as [? ->]. auto.
  - intros ((H1 & H2 & H3) & ->).
    rewrite !python_str_printable by assumption. reflexivity.
Qed.

Lemma format_version_raises (major minor patch : N) (e : exn) :
  format_version major minor patch = Raise e <->
  ~ (printable major /\ printable minor /\ printable patch)
  /\ e = str_limit_error.
Proof.
  unfold format_version. split.
  - destruct (python_str major) as [a|e1] eqn:H1;
      [|intros [= <-]; apply python_str_raises in H1; tauto].
    destruct (python_str minor) as [b|e2] eqn:H2;
      [|intros [= <-]; apply python_str_raises in H2; tauto].
    destruct (python_str patch) as [c|e3] eqn:H3;
      [discriminate|intros [= <-]; apply python_str_raises in H3; tauto].
  - intros [Hno ->].
    destruct (python_str major) as [a|e1] eqn:H1;
      [|apply python_str_raises in H1; destruct H1 as [_ ->]; reflexivity].
    destruct (python_str minor) as [b|e2] eqn:H2;
      [|apply python_str_raises in H2; destruct H2 as [_ ->]; reflexivity].
    destruct (python_str patch) as [c|e3] eqn:H3;
      [|apply python_str_raises in H3; destruct H3 as [_ ->]; reflexivity].
    exfalso. apply Hno.
    apply python_str_returns in H1, H2, H3. tauto.
Qed.

(** The text of three numbers is their canonical string. *)
Lemma formatted_canonical (major minor patch : N) :
  canonical_version major minor patch
    (str_of_int major ++ [DOT] ++ str_of_int minor ++ [DOT]
       ++ str_of_int patch).
Proof.
  exists (str_of_int major), (str_of_int minor), (str_of_int patch).
  split; [reflexivity|].
  repeat split; try apply str_of_int_canonical; apply int_of_str_of_int.
Qed.

(** What [format_version] returns reads back as the three numbers it
    was formatted from. *)
Lemma parse_format_version (major minor patch : N) (s : str) :
  format_version major minor patch = Return s ->
  parse_version s = Return (major, minor, patch).
Proof.
  intros Hs. apply format_version_returns in Hs.
  destruct Hs as ((H1 & H2 & H3) & ->).
  apply parse_version_returns_iff.
  exists (str_of_int major), (str_of_int minor), (str_of_int patch).
  split; [|split; [exact (conj H1 (conj H2 H3))|]].
  - split; [apply str_of_int_digits|]. split; [apply str_of_int_digits|].
    split; [apply str_of_int_digits|]. left. reflexivity.
  - repeat split; symmetry; apply int_of_str_of_int.
Qed.

(** ** [increment_version] *)

Lemma increment_level (version level : str) (major minor patch : N) :
  parse_version version = Return (major, minor, patch) ->
  increment_version version level
  = if str_eqb level (lit "patch") then format_version major minor (patch + 1)
    else if str_eqb level (lit "minor") then format_version major (minor + 1) 0
    else if str_eqb level (lit "major") then format_version (major + 1) 0 0
    else Raise (Exn ValueError
                  (lit "Unknown level '" ++ level
                     ++ lit "'. Use: patch, minor, or major")).
Proof. intros Hparse. unfold increment_version. rewrite Hparse. reflexivity. Qed.

(** C2, as amended.  When a version string parses to (major, minor,
    patch), the level "patch" yields the canonical string of (major,
    minor, patch + 1), "minor" that of (major, minor + 1, 0) and
    "major" that of (major + 1, 0, 0), provided the number that grows
    still has 4300 digits at most; with a digit more, [str] refuses it
    and the call raises [ValueError]. *)
Theorem increment_version_by_level (version : str) (major minor patch : N) :
  parse_version version = Return (major, minor, patch) ->
  ((printable (patch + 1) ->
    exists s, increment_version version (lit "patch") = Return s
              /\ canonical_version major minor (patch + 1) s)
   /\ (~ printable (patch + 1) ->
       increment_version version (lit "patch") = Raise str_limit_error))
  /\ ((printable (minor + 1) ->
       exists s, increment_version version (lit "minor") = Return s
                 /\ canonical_version major (minor + 1) 0 s)
      /\ (~ printable (minor + 1) ->
          increment_version version (lit "minor") = Raise str_limit_error))
  /\ ((printable (major + 1) ->
       exists s, increment_version version (lit "major") = Return s
                 /\ canonical_version (major + 1) 0 0 s)
      /\ (~ printable (major + 1) ->
          increment_version version (lit "major") = Raise str_limit_error)).
Proof.
  intros Hparse.
  destruct (parsed_printable _ _ _ _ Hparse) as (Hmajor & Hminor & Hpatch).
  pose proof printable_0 as Hzero.
  rewrite !(increment_level version _ major minor patch Hparse).
  cbn [str_eqb].
  change (str_eqb (lit "patch") (lit "patch")) with true.
  change (str_eqb (lit "minor") (lit "patch")) with false.
  change (str_eqb (lit "minor") (lit "minor")) with true.
  change (str_eqb (lit "major") (lit "patch")) with false.
  change (str_eqb (lit "major") (lit "minor")) with false.
  change (str_eqb (lit "major") (lit "major")) with true.
  cbv iota.
  repeat split.
  all: try (intros Hgrow; eexists; split;
            [apply format_version_returns; split; [tauto | reflexivity]
            |apply formatted_canonical]).
  all: intros Hgrow; apply format_version_raises; split; [tauto | reflexivity].
Qed.

Lemma increment_version_by_level_witness :
  ((printable (3 + 1) ->
    exists s, increment_version (lit "1.2.3") (lit "patch") = Return s
              /\ canonical_version 1 2 (3 + 1) s)
   /\ (~ printable (3 + 1) ->
       increment_version (lit "1.2.3") (lit "patch") = Raise str_limit_error))
  /\ ((printable (2 + 1) ->
       exists s, increment_version (lit "1.2.3") (lit "minor") = Return s
                 /\ canonical_version 1 (2 + 1) 0 s)
      /\ (~ printable (2 + 1) ->
          increment_version (lit "1.2.3") (lit "minor")
          = Raise str_limit_error))
  /\ ((printable (1 + 1) ->
       exists s, increment_version (lit "1.2.3") (lit "major") = Return s
                 /\ canonical_version (1 + 1) 0 0 s)
      /\ (~ printable (1 + 1) ->
          increment_version (lit "1.2.3") (lit "major")
          = Raise str_limit_error)).
Proof.
  apply (increment_version_by_level (lit "1.2.3") 1 2 3).
  reflexivity.
Defined.

Lemma repeat_decimal (n : nat) :
  Forall (fun c => is_decimal c = true) (repeat 57 n).
Proof.
  apply Forall_forall. intros c Hc. apply repeat_spec in Hc. subst c.
  reflexivity.
Qed.

Lemma value_of_nines (n : nat) (acc : N) :
  fold_left digit_step (repeat 57 n) acc + 1 = (acc + 1) * 10 ^ N.of_nat n.
Proof.
  revert acc. induction n as [|n IH]; intros acc.
  - cbn. lia.
  - cbn [repeat fold_left]. rewrite IH.
    change (digit_step acc 57) with (10 * acc + 9).
    rewrite Nat2N.inj_succ, N.pow_succ_r'.
    remember (10 ^ N.of_nat n) as P. lia.
Qed.

Lemma length_nines : N.of_nat (List.length nines) = INT_MAX_STR_DIGITS.
Proof. unfold nines. rewrite repeat_length. vm_compute. reflexivity. Qed.

Lemma nines_successor (n : nat) :
  int_of_digits (repeat 57 n) + 1 = 10 ^ N.of_nat n.
Proof.
  unfold int_of_digits. rewrite value_of_nines.
  remember (10 ^ N.of_nat n) as P. lia.
Qed.

Lemma nines_successor_not_printable : ~ printable (int_of_digits nines + 1).
Proof.
  unfold printable. intros Hp. apply decimal_digits_lt in Hp.
  rewrite <- length_nines in Hp. unfold nines in Hp.
  rewrite nines_successor, repeat_length in Hp.
  exact (N.lt_irrefl _ Hp).
Qed.

Lemma longest_version_parses :
  parse_version longest_version = Return (0, 0, int_of_digits nines).
Proof.
  apply parse_version_returns_iff. exists [48], [48], nines.
  split; [|split].
  - split; [split; [discriminate | repeat constructor]|].
    split; [split; [discriminate | repeat constructor]|].
    split; [|left; reflexivity].
    split; [discriminate | apply repeat_decimal].
  - unfold within_limit. rewrite length_nines.
    repeat split; try (cbn; unfold INT_MAX_STR_DIGITS; lia).
  - repeat split.
Qed.

(** C2 as stated fails: the version whose patch number is 4300 nines
    parses, and the level "patch" raises on it, the next number having
    a digit more than [str] prints. *)
Lemma increment_version_limit_counterexample :
  parse_version longest_version = Return (0, 0, int_of_digits nines)
  /\ increment_version longest_version (lit "patch") = Raise str_limit_error
  /\ ~ patch_always_increments.
Proof.
  pose proof longest_version_parses as Hparse.
  assert (Hraise : increment_version longest_version (lit "patch")
                   = Raise str_limit_error).
  { rewrite (increment_level _ _ _ _ _ Hparse).
    change (str_eqb (lit "patch") (lit "patch")) with true. cbv iota.
    apply format_version_raises. split; [|reflexivity].
    intros (_ & _ & Hp). exact (nines_successor_not_printable Hp). }
  split; [exact Hparse|]. split; [exact Hraise|].
  intros Hclaim. destruct (Hclaim _ _ _ _ Hparse) as (s & Hs & _).
  rewrite Hraise in Hs. discriminate Hs.
Qed.

(** C3, where the code departs from it.  A line feed after the third
    group does not stop the pattern from matching: [$] also matches
    just before a line feed that ends the string. *)
Theorem parse_version_accepts_trailing_line_feed :
  parse_version (lit "1.2.3" ++ [LF]) = Return (1, 2, 3).
Proof. reflexivity. Qed.

(* ================================================================== *)
(** * Order of paths and sorting *)

Section SeqOrder.
Context {A : Type} (ltb eqb : A -> A -> bool).
Hypothesis eqb_eq : forall x y, eqb x y = true <-> x = y.
Hypothesis ltb_irrefl : forall x, ltb x x = false.
Hypothesis ltb_trans :
  forall x y z, ltb x y = true -> ltb y z = true -> ltb x z = true.
Hypothesis ltb_total :
  forall x y, ltb x y = false -> ltb y x = false -> x = y.

Let eqb_refl (x : A) : eqb x x = true.
Proof. apply eqb_eq. reflexivity. Qed.

Lemma seq_ltb_irrefl (a : list A) : seq_ltb ltb eqb a a = false.
Proof.
  induction a as [|x a IH]; simpl; [reflexivity|].
  rewrite eqb_refl. exact IH.
Qed.

Lemma seq_ltb_trans (a b c : list A) :
  seq_ltb ltb eqb a b = true -> seq_ltb ltb eqb b c = true ->
  seq_ltb ltb eqb a c = true.
Proof.
  revert b c. induction a as [|x a IH]; intros [|y b] [|z c]; simpl;
    try discriminate; auto.
  destruct (eqb x y) eqn:Exy, (eqb y z) eqn:Eyz.
  - apply eqb_eq in Exy, Eyz. subst. rewrite eqb_refl. apply IH.
  - apply eqb_eq in Exy. subst. rewrite Eyz. auto.
  - apply eqb_eq in Eyz. subst. rewrite Exy. auto.
  - intros Hxy Hyz. pose proof (ltb_trans _ _ _ Hxy Hyz) as Hxz.
    destruct (eqb x z) eqn:Exz; [|exact Hxz].
    apply eqb_eq in Exz. subst. rewrite ltb_irrefl in Hxz. discriminate.
Qed.

Lemma seq_ltb_total (a b : list A) :
  seq_ltb ltb eqb a b = false -> seq_ltb ltb eqb b a = false -> a = b.
Proof.
  revert b. induction a as [|x a IH]; intros [|y b]; simpl;
    try discriminate; auto.
  destruct (eqb x y) eqn:Exy.
  - apply eqb_eq in Exy. subst. rewrite eqb_refl.
    intros H1 H2. f_equal. apply IH; assumption.
  - destruct (eqb y x) eqn:Eyx.
    + apply eqb_eq in Eyx. subst. rewrite eqb_refl in Exy. discriminate.
    + intros H1 H2. rewrite (ltb_total _ _ H1 H2) in Exy.
      rewrite eqb_refl in Exy. discriminate.
Qed.
End SeqOrder.

Lemma str_ltb_irrefl (a : str) : str_ltb a a = false.
Proof. apply seq_ltb_irrefl. apply N.eqb_eq. Qed.

Lemma str_ltb_trans (a b c : str) :
  str_ltb a b = true -> str_ltb b c = true -> str_ltb a c = true.
Proof.
  apply seq_ltb_trans; [apply N.eqb_eq | apply N.ltb_irrefl |].
  intros x y z. rewrite !N.ltb_lt. lia.
Qed.

Lemma str_ltb_total (a b : str) :
  str_ltb a b = false -> str_ltb b a = false -> a = b.
Proof.
  apply seq_ltb_total; [apply N.eqb_eq |].
  intros x y. rewrite !N.ltb_ge. lia.
Qed.

Lemma path_ltb_irrefl (p : path) : path_ltb p p = false.
Proof. apply seq_ltb_irrefl. apply str_eqb_eq. Qed.

Lemma path_ltb_trans (p q r : path) :
  path_ltb p q = true -> path_ltb q r = true -> path_ltb p r = true.
Proof.
  apply seq_ltb_trans;
    [apply str_eqb_eq | apply str_ltb_irrefl | apply str_ltb_trans].
Qed.

Lemma path_ltb_total (p q : path) :
  path_ltb p q = false -> path_ltb q p = false -> p = q.
Proof. apply seq_ltb_total; [apply str_eqb_eq | apply str_ltb_total]. Qed.

Lemma path_ltb_asym (p q : path) :
  path_ltb p q = true -> path_ltb q p = false.
Proof.
  intros Hpq. destruct (path_ltb q p) eqn:Hqp; [|reflexivity].
  pose proof (path_ltb_trans _ _ _ Hpq Hqp) as Hpp.
  rewrite path_ltb_irrefl in Hpp. discriminate.
Qed.

Lemma path_le_trans (p q r : path) : path_le p q -> path_le q r -> path_le p r.
Proof.
  unfold path_le. intros Hpq Hqr.
  destruct (path_ltb r p) eqn:Hrp; [|reflexivity].
  destruct (path_ltb p q) eqn:Hlt.
  - rewrite (path_ltb_trans _ _ _ Hrp Hlt) in Hqr. discriminate.
  - rewrite (path_ltb_total _ _ Hlt Hpq) in Hrp. congruence.
Qed.

Lemma insert_sorted_perm (p : path) (l : list path) :
  Permutation (p :: l) (insert_sorted p l).
Proof.
  induction l as [|q l IH]; simpl; [reflexivity|].
  destruct (path_ltb q p); [|reflexivity].
  rewrite perm_swap. constructor. exact IH.
Qed.

Lemma sorted_perm (l : list path) : Permutation l (sorted l).
Proof.
  induction l as [|p l IH]; simpl; [constructor|].
  rewrite <- insert_sorted_perm. constructor. exact IH.
Qed.

Lemma insert_sorted_le (p : path) (l : list path) :
  StronglySorted path_le l -> StronglySorted path_le (insert_sorted p l).
Proof.
  induction 1 as [|q l Hl IH Hq]; simpl.
  - repeat constructor.
  - destruct (path_ltb q p) eqn:Hqp.
    + constructor; [exact IH|].
      apply Forall_forall. intros r Hr.
      apply (Permutation_in _ (Permutation_sym (insert_sorted_perm p l))) in Hr.
      destruct Hr as [<- | Hr].
      * apply path_ltb_asym. exact Hqp.
      * rewrite Forall_forall in Hq. apply Hq. exact Hr.
    + constructor; [constructor; assumption|].
      constructor; [exact Hqp|].
      apply Forall_forall. intros r Hr. rewrite Forall_forall in Hq.
      apply path_le_trans with q; [exact Hqp | apply Hq; exact Hr].
Qed.

Lemma sorted_le (l : list path) : StronglySorted path_le (sorted l).
Proof.
  induction l as [|p l IH]; simpl; [constructor|].
  apply insert_sorted_le. exact IH.
Qed.

Lemma sorted_strict (l : list path) :
  NoDup l -> StronglySorted path_le l ->
  StronglySorted (fun p q => path_ltb p q = true) l.
Proof.
  intros Hnd Hs. induction Hs as [|p l Hl IH Hp]; [constructor|].
  apply NoDup_cons_iff in Hnd. destruct Hnd as [Hnotin Hnd].
  constructor; [apply IH; exact Hnd|].
  apply Forall_forall. intros q Hq. rewrite Forall_forall in Hp.
  destruct (path_ltb p q) eqn:Hpq; [reflexivity|].
  rewrite (path_ltb_total _ _ Hpq (Hp q Hq)) in Hnotin. contradiction.
Qed.

(* ================================================================== *)
(** * The tree *)

Section NodeInduction.
Variable P : node -> Prop.
Hypothesis P_file : forall content, P (File content).
Hypothesis P_special : P Special.
Hypothesis P_dir :
  forall entries, Forall (fun e => P (snd e)) entries -> P (Dir entries).

Fixpoint node_induction (n : node) : P n :=
  match n with
  | File content => P_file content
  | Special => P_special
  | Dir entries =>
      P_dir entries
        ((fix all (es : list (str * node)) : Forall (fun e => P (snd e)) es :=
            match es with
            | [] => Forall_nil _
            | e :: rest => Forall_cons e (node_induction (snd e)) (all rest)
            end) entries)
  end.
End NodeInduction.

Lemma distinct_NoDup (names : list str) :
  distinct names = true <-> NoDup names.
Proof.
  induction names as [|x rest IH]; simpl.
  - split; [constructor | reflexivity].
  - rewrite andb_true_iff, negb_true_iff, IH, NoDup_cons_iff.
    assert (Hx : existsb (str_eqb x) rest = false <-> ~ In x rest).
    { rewrite <- not_true_iff_false, existsb_exists. split.
      - intros Hno Hin. apply Hno. exists x. split; [exact Hin|].
        apply str_eqb_refl.
      - intros Hno (y & Hin & Heq). apply str_eqb_eq in Heq. subst.
        contradiction. }
    rewrite Hx. reflexivity.
Qed.

Lemma unique_names_dir (entries : list (str * node)) :
  unique_names (Dir entries) = true <->
  NoDup (map fst entries)
  /\ Forall (fun e => unique_names (snd e) = true) entries.
Proof.
  simpl. rewrite andb_true_iff, distinct_NoDup.
  apply and_iff_compat_l.
  induction entries as [|[nm child] rest IH]; simpl.
  - split; [constructor | reflexivity].
  - rewrite andb_true_iff, IH. split.
    + intros [Hc Hr]. constructor; assumption.
    + intros Hall. inversion Hall; subst. split; assumption.
Qed.

Lemma assoc_in {A : Type} (k : str) (v : A) (es : list (str * A)) :
  assoc k es = Some v -> In (k, v) es.
Proof.
  induction es as [|[k' v'] es IH]; simpl; [discriminate|].
  destruct (str_eqb k' k) eqn:Hk.
  - apply str_eqb_eq in Hk. intros [= ->]. subst. left. reflexivity.
  - intros Hin. right. apply IH. exact Hin.
Qed.

Lemma in_assoc {A : Type} (k : str) (v : A) (es : list (str * A)) :
  NoDup (map fst es) -> In (k, v) es -> assoc k es = Some v.
Proof.
  induction es as [|[k' v'] es IH]; simpl; [contradiction|].
  intros Hnd Hin. apply NoDup_cons_iff in Hnd. destruct Hnd as [Hnotin Hnd].
  destruct Hin as [[= -> ->] | Hin].
  - rewrite str_eqb_refl. reflexivity.
  - destruct (str_eqb k' k) eqn:Hk.
    + apply str_eqb_eq in Hk. subst. exfalso. apply Hnotin.
      apply in_map_iff. exists (k, v). split; [reflexivity | exact Hin].
    + apply IH; assumption.
Qed.

Lemma lookup_app (root n : node) (p q : path) :
  lookup root p = Some n -> lookup root (p ++ q) = lookup n q.
Proof.
  revert root. induction p as [|nm p IH]; intros root; simpl.
  - intros [= ->]. reflexivity.
  - destruct root as [|es|]; try discriminate.
    destruct (assoc nm es) as [child|]; [|discriminate]. apply IH.
Qed.

Lemma lookup_unique_names (root n : node) (p : path) :
  unique_names root = true -> lookup root p = Some n ->
  unique_names n = true.
Proof.
  revert root. induction p as [|nm p IH]; intros root Hu; simpl.
  - intros [= <-]. exact Hu.
  - destruct root as [|es|]; try discriminate.
    destruct (assoc nm es) as [child|] eqn:Ha; [|discriminate].
    apply IH. apply unique_names_dir in Hu. destruct Hu as [_ Hall].
    rewrite Forall_forall in Hall. apply (Hall (nm, child)).
    apply assoc_in. exact Ha.
Qed.

(** ** [rglob] *)

Lemma rglob_node_dir (pattern : str) (here : path) (es : list (str * node)) :
  rglob_node pattern here (Dir es)
  = (match assoc pattern es with
     | Some _ => [here ++ [pattern]]
     | None => []
     end)
    ++ flat_map (fun e => rglob_node pattern (here ++ [fst e]) (snd e)) es.
Proof.
  cbn [rglob_node]. f_equal.
  induction es as [|[nm child] rest IH]; [reflexivity|].
  cbn [flat_map fst snd]. rewrite <- IH. reflexivity.
Qed.

(** Membership: the paths found are those that end in the pattern and
    name something in the subtree. *)
Lemma rglob_node_in (pattern : str) (n : node) :
  unique_names n = true ->
  forall (here p : path),
    In p (rglob_node pattern here n) <->
    exists rel, p = here ++ rel ++ [pattern]
                /\ lookup n (rel ++ [pattern]) <> None.
Proof.
  induction n as [content | | es IH] using node_induction; intros Hu here p.
  - simpl. split; [contradiction|].
    intros (rel & _ & Hl). destruct rel; simpl in Hl; congruence.
  - simpl. split; [contradiction|].
    intros (rel & _ & Hl). destruct rel; simpl in Hl; congruence.
  - apply unique_names_dir in Hu. destruct Hu as [Hnd Hall].
    rewrite rglob_node_dir, in_app_iff, in_flat_map. split.
    + intros [Hhit | ([nm child] & Hin & Hp)].
      * destruct (assoc pattern es) eqn:Ha; [|contradiction].
        destruct Hhit as [<- | []]. exists []. split; [reflexivity|].
        simpl. rewrite Ha. discriminate.
      * rewrite Forall_forall in IH, Hall.
        apply (IH (nm, child) Hin (Hall _ Hin)) in Hp.
        destruct Hp as (rel & -> & Hl). exists (nm :: rel). split.
        -- cbn [fst]. rewrite <- app_assoc. reflexivity.
        -- cbn [app lookup]. rewrite (in_assoc nm child es Hnd Hin). exact Hl.
    + intros (rel & -> & Hl). destruct rel as [|nm rel].
      * left. simpl in Hl. destruct (assoc pattern es); [|congruence].
        left. reflexivity.
      * right. cbn [app lookup] in Hl.
        destruct (assoc nm es) as [child|] eqn:Ha; [|congruence].
        exists (nm, child). split; [apply assoc_in; exact Ha|].
        rewrite Forall_forall in IH, Hall.
        apply (IH (nm, child) (assoc_in nm child es Ha)
                 (Hall _ (assoc_in nm child es Ha))).
        exists rel. split; [|exact Hl].
        cbn [fst]. rewrite <- app_assoc. reflexivity.
Qed.

Lemma rglob_node_NoDup (pattern : str) (n : node) :
  unique_names n = true ->
  forall here, NoDup (rglob_node pattern here n).
Proof.
  induction n as [content | | es IH] using node_induction; intros Hu here;
    try (simpl; constructor).
  pose proof Hu as Hu'. apply unique_names_dir in Hu'.
  destruct Hu' as [Hnd Hall].
  rewrite rglob_node_dir. apply NoDup_app.
  - destruct (assoc pattern es); repeat constructor. intros [].
  - clear Hu. induction es as [|[nm child] rest IHrest]; simpl; [constructor|].
    inversion IH as [|? ? IHc IHr]; subst.
    inversion Hall as [|? ? Hc Hr]; subst.
    simpl in Hnd. apply NoDup_cons_iff in Hnd. destruct Hnd as [Hnotin Hnd].
    apply NoDup_app.
    + apply IHc. exact Hc.
    + apply IHrest; assumption.
    + intros p Hp Hq. simpl in Hp.
      apply (rglob_node_in pattern child Hc) in Hp.
      destruct Hp as (rel & -> & _).
      apply in_flat_map in Hq. destruct Hq as ([nm' child'] & Hin & Hq).
      rewrite Forall_forall in Hr.
      apply (rglob_node_in pattern child' (Hr _ Hin)) in Hq.
      destruct Hq as (rel' & Heq & _). cbn [fst] in Heq.
      rewrite <- !app_assoc in Heq. apply app_inv_head in Heq.
      injection Heq as Hnm _. subst nm'. apply Hnotin.
      apply in_map_iff. exists (nm, child'). split; [reflexivity | exact Hin].
  - intros p Hp Hq. destruct (assoc pattern es); [|contradiction].
    destruct Hp as [<- | []].
    apply in_flat_map in Hq. destruct Hq as ([nm child] & Hin & Hq).
    rewrite Forall_forall in Hall.
    apply (rglob_node_in pattern child (Hall _ Hin)) in Hq.
    destruct Hq as (rel & Heq & _). cbn [fst] in Heq.
    rewrite <- app_assoc in Heq. apply app_inv_head in Heq.
    destruct rel; discriminate.
Qed.

(* ================================================================== *)
(** * Properties of the template locator *)

Lemma is_dir_lookup (root : node) (p : path) :
  is_dir root p = true -> exists es, lookup root p = Some (Dir es).
Proof.
  unfold is_dir. destruct (lookup root p) as [[| es |]|]; try discriminate.
  intros _. exists es. reflexivity.
Qed.

Lemma is_dir_not_file (root : node) (p : path) :
  is_dir root p = true -> is_file root p = false.
Proof.
  unfold is_dir, is_file.
  destruct (lookup root p) as [[| es |]|]; try discriminate. reflexivity.
Qed.

Lemma is_dir_exists (root : node) (p : path) :
  is_dir root p = true -> path_exists root p = true.
Proof.
  unfold is_dir, path_exists.
  destruct (lookup root p) as [[| es |]|]; try discriminate; reflexivity.
Qed.

Lemma rglob_in (root : node) (target p : path) :
  unique_names root = true -> is_dir root target = true ->
  In p (rglob root target MANIFEST) <->
  exists rel, p = target ++ rel ++ [MANIFEST] /\ path_exists root p = true.
Proof.
  intros Hu Hd. destruct (is_dir_lookup _ _ Hd) as (es & Hl).
  unfold rglob. rewrite Hl.
  rewrite (rglob_node_in MANIFEST (Dir es)
             (lookup_unique_names _ _ _ Hu Hl) target p).
  split; intros (rel & -> & Hx); exists rel; (split; [reflexivity|]).
  - unfold path_exists. rewrite (lookup_app _ _ _ _ Hl).
    destruct (lookup (Dir es) (rel ++ [MANIFEST])); congruence.
  - unfold path_exists in Hx. rewrite (lookup_app _ _ _ _ Hl) in Hx.
    destruct (lookup (Dir es) (rel ++ [MANIFEST])); congruence.
Qed.

Lemma rglob_NoDup (root : node) (target : path) :
  unique_names root = true -> NoDup (rglob root target MANIFEST).
Proof.
  intros Hu. unfold rglob.
  destruct (lookup root target) as [n|] eqn:Hl; [|constructor].
  apply rglob_node_NoDup. apply (lookup_unique_names _ _ _ Hu Hl).
Qed.




(** C5, where the code departs from it.  A directory whose only entry
    of the manifest name is itself a directory holds no manifest file,
    yet the locator returns that entry instead of raising. *)
Theorem find_templates_returns_a_directory :
  is_dir manifest_named_directory [lit "src"] = true
  /\ (forall p, ~ manifest_file_below manifest_named_directory [lit "src"] p)
  /\ find_templates manifest_named_directory [lit "src"]
     = Return [[lit "src"; MANIFEST]]
  /\ is_dir manifest_named_directory [lit "src"; MANIFEST] = true.
Proof.
  split; [reflexivity|]. split; [|split; reflexivity].
  intros p (rel & -> & Hf). unfold is_file in Hf.
  cbn [app] in Hf. unfold manifest_named_directory in Hf.
  cbn [lookup assoc] in Hf. rewrite str_eqb_refl in Hf.
  destruct rel as [|nm rel]; cbn [app lookup assoc] in Hf.
  - rewrite str_eqb_refl in Hf. discriminate.
  - destruct (str_eqb MANIFEST nm); [|discriminate].
    destruct rel; cbn [app lookup assoc] in Hf; discriminate.
Qed.

Lemma sorted_nil (l : list path) : sorted l = [] <-> l = [].
Proof.
  split; intros Hl.
  - apply Permutation_nil. rewrite <- Hl. apply Permutation_sym, sorted_perm.
  - subst. reflexivity.
Qed.

Lemma locator_errors_differ (target : path) :
  TargetNotFound target <> NoTemplatesFound target
  /\ TargetNotFound target <> InvalidTarget target
  /\ NoTemplatesFound target <> InvalidTarget target.
Proof. repeat split; discriminate. Qed.

(** When the locator raises, and what: [FileNotFoundError] exactly for
    a path that does not exist; "Invalid target" exactly for a path
    that exists and is neither a directory nor a regular file of the
    manifest name; "No templates found" exactly for a directory in
    whose subtree [rglob] finds no entry of the manifest name. *)
Lemma find_templates_errors (root : node) (target : path) :
  (find_templates root target = Raise (TargetNotFound target)
   <-> path_exists root target = false)
  /\ (find_templates root target = Raise (NoTemplatesFound target)
      <-> is_dir root target = true /\ rglob root target MANIFEST = [])
  /\ (find_templates root target = Raise (InvalidTarget target)
      <-> path_exists root target = true
          /\ is_dir root target = false
          /\ is_file root target && str_eqb (name target) MANIFEST = false)
  /\ (forall e,
        find_templates root target = Raise e ->
        e = TargetNotFound target \/ e = NoTemplatesFound target
        \/ e = InvalidTarget target).
Proof.
  destruct (locator_errors_differ target) as (Hd1 & Hd2 & Hd3).
  unfold find_templates.
  pose proof (is_dir_not_file root target) as Hfile.
  pose proof (is_dir_exists root target) as Hex.
  pose proof (sorted_nil (rglob root target MANIFEST)) as Hnil.
  destruct (path_exists root target), (is_file root target),
    (str_eqb (name target) MANIFEST), (is_dir root target);
    cbn [negb andb];
    try (specialize (Hfile eq_refl); discriminate Hfile);
    try (specialize (Hex eq_refl); discriminate Hex);
    clear Hfile Hex;
    fold (TargetNotFound target); fold (NoTemplatesFound target);
    fold (InvalidTarget target);
    try (destruct (sorted (rglob root target MANIFEST)) eqn:Hs;
         [pose proof (proj1 Hnil eq_refl) as Hr
         |assert (Hne : rglob root target MANIFEST <> [])
            by (intros Hr; apply Hnil in Hr; discriminate Hr)]);
    clear Hnil;
    (split; [|split; [|split]];
     [split; intros Hyp | split; intros Hyp | split; intros Hyp
     |intros e He; first [discriminate He | injection He as <-; auto]]);
    repeat match goal with
           | Hc : _ /\ _ |- _ => destruct Hc
           end;
    try discriminate; try congruence; auto.
Qed.

(* ================================================================== *)
(** * Reasoning about effects *)

Arguments lit : simpl never.

Lemma wp_run {A : Type} (m : M A) (w : world) (Q : result A -> world -> Prop) :
  wp m w Q -> forall r w', m w = (r, w') -> Q r w'.
Proof. unfold wp. intros HQ r w' E. rewrite E in HQ. exact HQ. Qed.

Lemma wp_ret {A : Type} (a : A) (w : world) Q : Q (Return a) w -> wp (ret a) w Q.
Proof. auto. Qed.

Lemma wp_raise {A : Type} (e : exn) (w : world) (Q : result A -> world -> Prop) :
  Q (Raise e) w -> wp (raise e) w Q.
Proof. auto. Qed.

Lemma wp_lift {A : Type} (r : result A) (w : world) Q : Q r w -> wp (lift r) w Q.
Proof. auto. Qed.

Lemma wp_bind {A B : Type} (m : M A) (k : A -> M B) (w : world) Q :
  wp m w (fun r w1 =>
            match r with
            | Return a => wp (k a) w1 Q
            | Raise e => Q (Raise e) w1
            end) ->
  wp (bind m k) w Q.
Proof. unfold wp, bind. destruct (m w) as [[a|e] w1]; auto. Qed.

Lemma wp_try {A : Type} (body : M A) (handler : exn -> M A) (w : world) Q :
  wp body w (fun r w1 =>
               match r with
               | Return a => Q (Return a) w1
               | Raise e => wp (handler e) w1 Q
               end) ->
  wp (try_except body handler) w Q.
Proof. unfold wp, try_except. destruct (body w) as [[a|e] w1]; auto. Qed.

Lemma wp_print (line : str) (w : world) (Q : result unit -> world -> Prop) :
  (forallb (stdout_encodes w) line = true ->
   Q (Return tt) (add_stdout w line)) ->
  (forallb (stdout_encodes w) line = false -> forall e, Q (Raise e) w) ->
  wp (print line) w Q.
Proof.
  unfold wp, print. intros Hok Hfail.
  destruct (forallb (stdout_encodes w) line); simpl; auto.
Qed.

Lemma wp_eprint (line : str) (w : world) (Q : result unit -> world -> Prop) :
  Q (Return tt) (add_stderr w line) -> wp (eprint line) w Q.
Proof. auto. Qed.

Lemma wp_take_fault (w : world) (Q : result (option nat) -> world -> Prop) :
  (forall f w1, after_fault w f w1 -> Q (Return f) w1) -> wp take_fault w Q.
Proof.
  intros HQ. unfold wp, take_fault. destruct (faults w) as [|f rest] eqn:E.
  - apply HQ. constructor. exact E.
  - apply HQ. econstructor. exact E.
Qed.

Lemma after_fault_fs w f w1 : after_fault w f w1 -> fs w1 = fs w.
Proof. destruct 1; reflexivity. Qed.

Lemma after_fault_encodes w f w1 :
  after_fault w f w1 -> stdout_encodes w1 = stdout_encodes w.
Proof. destruct 1; reflexivity. Qed.

Lemma wp_read_text (p : path) (w : world) (Q : result bytes -> world -> Prop) :
  (forall f w1, after_fault w f w1 ->
     match f, lookup (fs w) p with
     | None, Some (File content) => Q (Return content) w1
     | _, _ => forall e, Q (Raise e) w1
     end) ->
  wp (read_text p) w Q.
Proof.
  intros HQ. unfold read_text. apply wp_bind, wp_take_fault.
  intros f w1 Hf. specialize (HQ f w1 Hf).
  rewrite <- (after_fault_fs _ _ _ Hf) in HQ.
  destruct f as [k|]; [apply wp_raise, HQ|].
  unfold wp. destruct (lookup (fs w1) p) as [[content|es|]|]; simpl; auto.
Qed.

Lemma wp_write_text (p : path) (content : bytes) (w : world)
    (Q : result unit -> world -> Prop) :
  (forall f w1, after_fault w f w1 ->
     match lookup (fs w) p with
     | Some (Dir _) | Some Special => forall e, Q (Raise e) w1
     | _ =>
         let written :=
           match f with Some k => firstn k content | None => content end in
         match put (fs w) p (File written) with
         | None => forall e, Q (Raise e) w1
         | Some root' =>
             match f with
             | Some _ => forall e, Q (Raise e) (with_fs w1 root')
             | None => Q (Return tt) (with_fs w1 root')
             end
         end
     end) ->
  wp (write_text p content) w Q.
Proof.
  intros HQ. unfold write_text. apply wp_bind, wp_take_fault.
  intros f w1 Hf. specialize (HQ f w1 Hf).
  rewrite <- (after_fault_fs _ _ _ Hf) in HQ. unfold wp.
  destruct (lookup (fs w1) p) as [[c|es|]|]; simpl; auto;
    cbv zeta in HQ; destruct f as [k|];
    match type of HQ with
    | context [put ?a ?b ?c] => destruct (put a b c)
    end; simpl; auto.
Qed.

Lemma wp_replace (src dst : path) (w : world) (Q : result unit -> world -> Prop) :
  (forall f w1, after_fault w f w1 ->
     (forall e, Q (Raise e) w1)
     /\ (f = None -> src = dst -> Q (Return tt) w1)
     /\ (forall n root1 root2,
           f = None -> src <> dst ->
           lookup (fs w) src = Some n ->
           remove (fs w) src = Some root1 ->
           put root1 dst n = Some root2 ->
           Q (Return tt) (with_fs w1 root2))) ->
  wp (replace src dst) w Q.
Proof.
  intros HQ. unfold replace. apply wp_bind, wp_take_fault.
  intros f w1 Hf. destruct (HQ f w1 Hf) as (Hraise & Hsame & Hmove).
  rewrite <- (after_fault_fs _ _ _ Hf) in Hmove.
  destruct f as [k|]; [apply wp_raise, Hraise|].
  unfold wp. destruct (lookup (fs w1) src) as [n|] eqn:Hn; simpl; auto.
  unfold path_eqb.
  destruct (list_eq_dec (list_eq_dec N.eq_dec) src dst) as [Heq|Hne]; simpl; auto.
  assert (Hgo : let r := match remove (fs w1) src with
                  | None => (Raise (os_error "Invalid argument"), w1)
                  | Some root1 =>
                      match put root1 dst n with
                      | None => (Raise (Exn FileNotFoundError
                                          (lit "No such file or directory")), w1)
                      | Some root2 => (Return tt, with_fs w1 root2)
                      end
                  end in Q (fst r) (snd r)).
  { destruct (remove (fs w1) src) as [root1|] eqn:Hr; simpl; auto.
    destruct (put root1 dst n) as [root2|] eqn:Hp; simpl; auto.
    apply (Hmove n root1 root2); auto. }
  destruct n as [c|es|];
    destruct (lookup (fs w1) dst) as [[c'|[|entry es']|]|];
    simpl; auto.
Qed.

Lemma wp_subprocess_run (argv : list str) (w : world)
    (Q : result unit -> world -> Prop) :
  match children w argv with
  | NotFound =>
      Q (Raise (Exn FileNotFoundError (lit "No such file or directory"))) w
  | Exited code err =>
      if (code =? 0)%Z
      then Q (Return tt) (add_spawned w argv)
      else Q (Raise (Exn CalledProcessError err))
             (add_spawned w argv)
  | Raises e started =>
      Q (Raise e) (if started then add_spawned w argv else w)
  end ->
  wp (subprocess_run argv) w Q.
Proof.
  unfold wp, subprocess_run.
  destruct (children w argv) as [code err| |e started]; auto.
  destruct (code =? 0)%Z; auto.
Qed.

Lemma wp_file_system (w : world) (Q : result node -> world -> Prop) :
  Q (Return (fs w)) w -> wp file_system w Q.
Proof. auto. Qed.

Lemma wp_intro {A : Type} (m : M A) (w : world) (Q : result A -> world -> Prop) :
  (forall r w', m w = (r, w') -> Q r w') -> wp m w Q.
Proof.
  intros HQ. unfold wp. destruct (m w) as [r w'] eqn:E. apply HQ. reflexivity.
Qed.

(** One step of symbolic execution, chosen by the head of the program. *)
Ltac wp_step :=
  lazymatch goal with
  | |- wp (bind _ _) _ _ => apply wp_bind
  | |- wp (try_except _ _) _ _ => apply wp_try
  | |- wp (ret _) _ _ => apply wp_ret
  | |- wp (raise _) _ _ => apply wp_raise
  | |- wp (lift _) _ _ => apply wp_lift
  | |- wp (eprint _) _ _ => apply wp_eprint
  | |- wp (print _) _ _ => apply wp_print; [intros ? | intros ? ?]
  | |- wp file_system _ _ => apply wp_file_system
  | |- wp (read_text _) _ _ => apply wp_read_text; intros ? ? ?
  | |- wp (write_text _ _) _ _ => apply wp_write_text; intros ? ? ?
  | |- wp (replace _ _) _ _ =>
      apply wp_replace; intros ? ? ?; split; [intros ? | split; intros]
  | |- wp (subprocess_run _) _ _ => apply wp_subprocess_run
  | |- wp (if ?c then _ else _) _ _ => destruct c eqn:?
  | |- wp (match ?x with _ => _ end) _ _ => destruct x eqn:?
  | |- match ?x with _ => _ end => destruct x eqn:?
  end.

(** Symbolic execution to the leaves. *)
Ltac wp_auto :=
  repeat first
    [ wp_step
    | progress cbv beta iota zeta
    | progress intros ].

(** ** Writing next to a file *)

Lemma assoc_set_same {A : Type} (k : str) (v : A) (es : list (str * A)) :
  assoc k (assoc_set k v es) = Some v.
Proof.
  induction es as [|[k' v'] es IH]; simpl.
  - rewrite str_eqb_refl. reflexivity.
  - destruct (str_eqb k' k) eqn:Hk; simpl.
    + rewrite str_eqb_refl. reflexivity.
    + rewrite Hk. exact IH.
Qed.

Lemma assoc_set_other {A : Type} (k k' : str) (v : A) (es : list (str * A)) :
  k <> k' -> assoc k' (assoc_set k v es) = assoc k' es.
Proof.
  intros Hne. induction es as [|[k0 v0] es IH]; simpl.
  - apply str_eqb_neq in Hne. rewrite Hne. reflexivity.
  - destruct (str_eqb k0 k) eqn:Hk; simpl.
    + apply str_eqb_eq in Hk. subst k0.
      apply str_eqb_neq in Hne. rewrite Hne. reflexivity.
    + destruct (str_eqb k0 k'); [reflexivity | exact IH].
Qed.

Lemma assoc_remove_other {A : Type} (k k' : str) (es : list (str * A)) :
  k <> k' -> assoc k' (assoc_remove k es) = assoc k' es.
Proof.
  intros Hne. induction es as [|[k0 v0] es IH]; simpl; [reflexivity|].
  destruct (str_eqb k0 k) eqn:Hk; simpl.
  - apply str_eqb_eq in Hk. subst k0.
    apply str_eqb_neq in Hne. rewrite Hne. reflexivity.
  - destruct (str_eqb k0 k'); [reflexivity | exact IH].
Qed.

Lemma lookup_put_same (root root' : node) (p : path) (n : node) :
  put root p n = Some root' -> lookup root' p = Some n.
Proof.
  revert root root'. induction p as [|nm rest IH]; intros root root';
    [discriminate|].
  cbn [put]. destruct root as [|es|]; try discriminate.
  destruct rest as [|nm' rest'].
  - intros [= <-]. cbn [lookup]. rewrite assoc_set_same. reflexivity.
  - destruct (assoc nm es) as [child|]; [|discriminate].
    destruct (put child (nm' :: rest') n) as [child'|] eqn:Hc; [|discriminate].
    intros [= <-]. cbn [lookup]. rewrite assoc_set_same.
    apply (IH child child'). exact Hc.
Qed.


Lemma lookup_remove_sibling (root root' : node) (d : path) (a b : str) :
  remove root (d ++ [a]) = Some root' -> a <> b ->
  lookup root' (d ++ [b]) = lookup root (d ++ [b]).
Proof.
  revert root root'. induction d as [|nm d IH]; intros root root' Hrm Hne.
  - cbn [app remove] in Hrm. destruct root as [|es|]; try discriminate.
    injection Hrm as <-. cbn [app lookup].
    rewrite (assoc_remove_other a b es Hne). reflexivity.
  - cbn [app remove] in Hrm. destruct root as [|es|]; try discriminate.
    destruct (d ++ [a]) as [|x xs] eqn:Hd; [destruct d; discriminate|].
    destruct (assoc nm es) as [child|] eqn:Ha; [|discriminate].
    destruct (remove child (x :: xs)) as [child'|] eqn:Hc; [|discriminate].
    injection Hrm as <-. cbn [app lookup].
    rewrite assoc_set_same, Ha. apply IH; assumption.
Qed.

Lemma manifest_path (template_file : path) :
  name template_file = MANIFEST ->
  template_file = removelast template_file ++ [MANIFEST].
Proof.
  unfold name. intros Hn. destruct template_file as [|x rest].
  - discriminate.
  - rewrite <- Hn. apply app_removelast_last. discriminate.
Qed.

Lemma with_suffix_manifest (d : path) :
  with_suffix (d ++ [MANIFEST]) (lit ".tmp") = Return (d ++ [TEMP_NAME]).
Proof.
  unfold with_suffix, name. rewrite last_last, removelast_last. reflexivity.
Qed.


(** What the steps before a leaf say about the file system and the
    encoding of the console. *)
Ltac settle_worlds :=
  repeat match goal with
    | Hf : after_fault _ _ _ |- _ =>
        pose proof (after_fault_fs _ _ _ Hf);
        pose proof (after_fault_encodes _ _ _ Hf);
        clear Hf
    end;
  cbn [fs stdout_encodes with_fs add_stdout add_stderr with_faults
       add_spawned] in *;
  repeat match goal with
    | E : fs ?x = _ |- _ => try rewrite E in *; clear E
    | E : stdout_encodes ?x = _ |- _ => try rewrite E in *; clear E
    end.

Section UpdaterFrame.
Context `{Runtime}.

Lemma dry_run_keeps_file_system (template_file : path) (level : str)
    (w : world) :
  wp (update_template_version template_file level true) w
     (fun _ w' => fs w' = fs w).
Proof.
  unfold update_template_version. wp_auto; settle_worlds; congruence.
Qed.
End UpdaterFrame.

Section UpdaterOnDisk.
Context `{Runtime}.


(** C7.  After a successful update that is not a dry run, the
    manifest on disk is a JSON object whose version is the
    incremented one and whose other keys are those of the object
    read, with the values they had. *)
Theorem successful_update_on_disk (template_file : path) (level : str)
    (w w' : world) (content : bytes) (items : list (str * value))
    (version new_version : str) :
  name template_file = MANIFEST ->
  lookup (fs w) template_file = Some (File content) ->
  json_load content = Return (VDict items) ->
  assoc (lit "version") items = Some (VStr version) ->
  increment_version version level = Return new_version ->
  (let updated :=
     VDict (assoc_set (lit "version") (VStr new_version) items) in
   json_load (json_dump updated ++ [LF]) = Return updated) ->
  update_template_version template_file level false w = (Return true, w') ->
  exists content' items',
    lookup (fs w') template_file = Some (File content')
    /\ json_load content' = Return (VDict items')
    /\ assoc (lit "version") items' = Some (VStr new_version)
    /\ forall key, key <> lit "version" ->
                   assoc key items' = assoc key items.
Proof.
  intros Hname Hfile Hjson Hversion Hnew Hround Hrun.
  revert w' Hrun. apply manifest_path in Hname.
  generalize dependent (removelast template_file). intros d ->.
  intros w' Hrun.
  refine (wp_run _ _
            (fun r w1 =>
               r = Return true ->
               exists content' items',
                 lookup (fs w1) (d ++ [MANIFEST]) = Some (File content')
                 /\ json_load content' = Return (VDict items')
                 /\ assoc (lit "version") items' = Some (VStr new_version)
                 /\ forall key, key <> lit "version" ->
                                assoc key items' = assoc key items)
            _ _ _ Hrun eq_refl).
  clear w' Hrun.
  unfold update_template_version. wp_auto; settle_worlds;
    try discriminate.
  all: repeat match goal with
         | E : with_suffix _ _ = _ |- _ =>
             rewrite with_suffix_manifest in E; injection E as <-
         end.
  all: try match goal with
         | Heq : _ ++ [TEMP_NAME] = _ ++ [MANIFEST] |- _ =>
             apply app_inv_head in Heq; discriminate
         end.
  all: injection Hfile as Hfile; subst.
  all: match goal with
       | E : json_load _ = Return ?a |- _ =>
           rewrite Hjson in E; injection E as <-
       end.
  all: match goal with
       | E : get _ (lit "version") _ = Return ?a |- _ =>
           cbn [get] in E; rewrite Hversion in E; injection E as <-
       end.
  all: match goal with
       | E : call_increment_version _ _ = Return ?a |- _ =>
           cbn [call_increment_version] in E; rewrite Hnew in E;
           injection E as <-
       end.
  all: match goal with
       | E : setitem _ _ _ = Return ?a |- _ =>
           cbn [setitem] in E; injection E as <-
       end.
  all: repeat match goal with
       | Hput : put _ ?temp (File ?text) = Some ?root,
         Hget : lookup ?root ?temp = Some _ |- _ =>
           rewrite (lookup_put_same _ _ _ _ Hput) in Hget;
           injection Hget as <-
       end.
  all: match goal with
       | Hput : put _ ?dst ?n = Some ?root |- context [lookup ?root ?dst] =>
           rewrite (lookup_put_same _ _ _ _ Hput)
       end.
  all: subst.
  all: eexists; eexists; split; [reflexivity|]; split; [exact Hround|].
  all: split; [apply assoc_set_same|].
  all: intros key Hkey; apply assoc_set_other; congruence.
Qed.
End UpdaterOnDisk.





Section UpdaterProperties.
Context `{Runtime}.


End UpdaterProperties.

Lemma successful_update_on_disk_witness :
  exists content' items',
    lookup (fs (snd (@update_template_version Reference.runtime
                       example_path (lit "patch") false
                       (quiet utf8_stdout (one_template example_manifest)))))
           example_path = Some (File content')
    /\ Reference.loads content' = Return (VDict items')
    /\ assoc (lit "version") items' = Some (VStr (lit "1.0.1"))
    /\ forall key, key <> lit "version" ->
         assoc key items'
         = assoc key [ (lit "id", VStr (lit "t"));
                       (lit "version", VStr (lit "1.0.0")) ].
Proof.
  apply (@successful_update_on_disk Reference.runtime example_path
           (lit "patch")
           (quiet utf8_stdout (one_template example_manifest))
           (snd (@update_template_version Reference.runtime
                   example_path (lit "patch") false
                   (quiet utf8_stdout (one_template example_manifest))))
           example_manifest
           [ (lit "id", VStr (lit "t")); (lit "version", VStr (lit "1.0.0")) ]
           (lit "1.0.0") (lit "1.0.1")).
  - reflexivity.
  - reflexivity.
  - reflexivity.
  - reflexivity.
  - reflexivity.
  - vm_compute. reflexivity.
  - vm_compute. reflexivity.
Defined.

(** C1, where the code departs from it.  On a console whose encoding
    lacks U+2713 the line that reports success raises after the rename:
    the run returns False and the manifest already holds the new
    version. *)
Theorem update_reports_failure_after_replacing :
  let w := quiet ascii_stdout (one_template example_manifest) in
  let run := @update_template_version Reference.runtime
               example_path (lit "patch") false w in
  lookup (fs w) example_path = Some (File example_manifest)
  /\ fst run = Return false
  /\ lookup (fs (snd run)) example_path
     = Some (File (Reference.dumps_indent2
                     (VDict [ (lit "id", VStr (lit "t"));
                              (lit "version", VStr (lit "1.0.1")) ])
                   ++ [LF])).
Proof. vm_compute. repeat split. Qed.

(** ** The dry run *)



Lemma ascii_digit_decimal (c : char) : 48 <= c <= 57 -> is_decimal c = true.
Proof.
  intros Hc.
  assert (Hcases : c = 48 \/ c = 49 \/ c = 50 \/ c = 51 \/ c = 52 \/
                   c = 53 \/ c = 54 \/ c = 55 \/ c = 56 \/ c = 57) by lia.
  repeat (destruct Hcases as [-> | Hcases]; [reflexivity|]).
  subst c. reflexivity.
Qed.

Lemma ascii_digits_digits (g : str) : ascii_digits g -> digits g.
Proof.
  intros [Hne Hall]. split; [exact Hne|].
  apply Forall_impl with (2 := Hall). exact ascii_digit_decimal.
Qed.










Section DryRun.
Context `{Runtime}.

End DryRun.



(* ================================================================== *)
(** * Exit status of the version bump *)

(** No update failed when every one returned True. *)
Lemma failures_none (oks : list bool) :
  failures oks = 0 <-> forallb id oks = true.
Proof.
  induction oks as [|ok rest IH]; [cbn; tauto|].
  cbn [failures forallb]. destruct ok; cbn [negb id andb].
  - rewrite N.add_0_l. exact IH.
  - split; [lia | discriminate].
Qed.




Section BumpExit.
Context `{Runtime}.

(** An update returns, and leaves the console its encoding. *)
Lemma update_returns_and_keeps_console (template_file : path) (level : str)
    (dry_run : bool) (w : world) :
  wp (update_template_version template_file level dry_run) w
     (fun r w' =>
        (exists b, r = Return b) /\ stdout_encodes w' = stdout_encodes w).
Proof.
  unfold update_template_version. wp_auto; settle_worlds;
    (split; [eexists; reflexivity | reflexivity]).
Qed.




(** X18.  When the locator raises, [main] ends with status 1 and has run no
    update and started no process. *)
Lemma locator_failure_exit_status (args : bump_args) (w : world) (e : exn) :
  find_templates (fs w) (arg_target args) = Raise e ->
  fst (exit_status (main args) w) = 1%Z
  /\ fs (snd (exit_status (main args) w)) = fs w
  /\ spawned (snd (exit_status (main args) w)) = spawned w.
Proof.
  intros Hfind.
  assert (Hclass : subclass (exn_type e) FileNotFoundError
                   || subclass (exn_type e) ValueError = true).
  { destruct (find_templates_errors (fs w) (arg_target args))
      as (_ & _ & _ & Hall).
    destruct (Hall e Hfind) as [-> | [-> | ->]]; reflexivity. }
  assert (Hwp : wp (main args) w
                   (fun r w' => status_of r = 1%Z /\ fs w' = fs w
                                /\ spawned w' = spawned w)).
  { unfold main.
    repeat first
      [ lazymatch goal with
        | |- wp (match find_templates _ _ with _ => _ end) _ _ =>
            cbn [fs add_stdout]; rewrite Hfind
        | |- wp (if subclass _ _ || subclass _ _ then _ else _) _ _ =>
            rewrite Hclass
        end
      | wp_step
      | progress cbv beta iota zeta
      | progress intros ];
      repeat split. }
  unfold wp in Hwp. unfold exit_status.
  destruct (main args w) as [[code|e'] w']; exact Hwp.
Qed.

End BumpExit.

(** C8, where the code departs from it.  A dry run in which the one
    update succeeds and no commit is asked for ends with status 1 on a
    console whose encoding lacks U+2713: the summary line raises and
    nothing catches it. *)
Theorem dry_run_exit_status_on_ascii_console :
  let w := quiet ascii_stdout (one_template example_manifest) in
  let args := BumpArgs (lit "patch") [lit "src"] true false in
  find_templates (fs w) [lit "src"] = Return [example_path]
  /\ fst (@update_template_version Reference.runtime
            example_path (lit "patch") true w) = Return true
  /\ fst (exit_status (@main Reference.runtime args) w) = 1%Z
  /\ stderr (snd (exit_status (@main Reference.runtime args) w)) = [].
Proof. vm_compute. repeat split. Qed.

(* ================================================================== *)
(** * Properties of the publish orchestrator *)

Lemma bump_cmd_is_not_publish_cmd (args : publish_templates.publish_args) :
  publish_templates.bump_cmd args <> publish_templates.publish_cmd args.
Proof.
  intros Heq. apply (f_equal (@List.length (list char))) in Heq.
  unfold publish_templates.bump_cmd, publish_templates.publish_cmd in Heq.
  rewrite length_app in Heq.
  destruct (publish_templates.arg_dry_run args); discriminate.
Qed.

(** C9.  When the bump step is requested and its child process ends
    with a status other than zero, the orchestrator ends with status 1
    and the only process it started is that child: the publishing
    tool is not run. *)
Theorem failed_bump_stops_publish (args : publish_templates.publish_args)
    (w : world) (code : Z) (err : str) :
  publish_templates.arg_update_version args = true ->
  children w (publish_templates.bump_cmd args) = Exited code err ->
  code <> 0%Z ->
  exists w' started,
    exit_status (publish_templates.main args) w = (1%Z, w')
    /\ spawned w' = spawned w ++ started
    /\ ~ In (publish_templates.publish_cmd args) started.
Proof.
  intros Hupdate Hchild Hcode.
  assert (Hnonzero : (code =? 0)%Z = false) by (apply Z.eqb_neq; exact Hcode).
  assert (Hwp : wp (publish_templates.main args) w
                   (fun r w' =>
                      (forall c, r = Return c -> c = 1%Z)
                      /\ exists started,
                           spawned w' = spawned w ++ started
                           /\ ~ In (publish_templates.publish_cmd args) started)).
  { unfold publish_templates.main. rewrite Hupdate.
    repeat first
      [ progress cbn [negb subclass exn_type exn_class_eqb base_class orb]
      | progress cbn [children with_fs add_stdout add_stderr with_faults
                      add_spawned]
      | rewrite Hchild
      | rewrite Hnonzero
      | wp_step
      | progress cbv beta iota zeta
      | progress intros ].
    all: cbn [spawned with_fs add_stdout add_stderr with_faults add_spawned].
    all: split;
      [intros c Hc; first [discriminate Hc | injection Hc as <-; reflexivity]|].
    all: try (exists []; rewrite app_nil_r; split; [reflexivity | intros []]).
    all: try (eexists; split; [reflexivity|];
              intros [Hin | []]; revert Hin; apply bump_cmd_is_not_publish_cmd).
  }
  unfold exit_status.
  destruct (publish_templates.main args w) as [r w'] eqn:E.
  destruct (wp_run _ _ _ Hwp _ _ E) as (Hr & started & Hs & Hno).
  exists w', started. destruct r as [c|e].
  - rewrite (Hr c eq_refl). auto.
  - auto.
Qed.

Lemma failed_bump_stops_publish_witness :
  exists w' started,
    exit_status (publish_templates.main example_publish)
                (World (Dir []) [] [] utf8_stdout [] failing_bump [])
    = (1%Z, w')
    /\ spawned w' = [] ++ started
    /\ ~ In (publish_templates.publish_cmd example_publish) started.
Proof.
  apply (failed_bump_stops_publish example_publish
           (World (Dir []) [] [] utf8_stdout [] failing_bump []) 1 []).
  - reflexivity.
  - reflexivity.
  - discriminate.
Defined.

(* ================================================================== *)
(** * Further properties of the version engine *)

(** X1.  What [parse_version] does on every text.  On a text its
    pattern accepts (three groups of decimal digits separated by dots,
    with at most one line feed after them) whose groups have 4300
    digits at most, it returns the values of the three groups; on a
    text the pattern accepts with a longer group, [int] raises
    [ValueError] with the number of digits of the first such group in
    its message; on every other text it raises [ValueError] with the
    message "Invalid semver format: " followed by the text. *)
Theorem parse_version_exact (s : str) :
  (exists g1 g2 g3,
     semver_text s g1 g2 g3
     /\ (within_limit g1 /\ within_limit g2 /\ within_limit g3)
     /\ parse_version s
        = Return (int_of_digits g1, int_of_digits g2, int_of_digits g3))
  \/ (exists g1 g2 g3 g,
        semver_text s g1 g2 g3
        /\ ((~ within_limit g1 /\ g = g1)
            \/ (within_limit g1 /\ ~ within_limit g2 /\ g = g2)
            \/ (within_limit g1 /\ within_limit g2 /\ ~ within_limit g3
                /\ g = g3))
        /\ parse_version s
           = Raise (int_limit_error (N.of_nat (List.length g))))
  \/ ((forall g1 g2 g3, ~ semver_text s g1 g2 g3)
      /\ parse_version s
         = Raise (Exn ValueError (lit "Invalid semver format: " ++ s))).
Proof.
  unfold parse_version.
  destruct (re_match_semver s) as [[[g1 g2] g3]|] eqn:Hm.
  - apply re_match_semver_spec in Hm.
    destruct (python_int g1) as [a|e1] eqn:H1.
    + apply python_int_returns in H1. destruct H1 as [H1 ->].
      destruct (python_int g2) as [b|e2] eqn:H2.
      * apply python_int_returns in H2. destruct H2 as [H2 ->].
        destruct (python_int g3) as [c|e3] eqn:H3.
        -- apply python_int_returns in H3. destruct H3 as [H3 ->].
           left. exists g1, g2, g3. auto.
        -- apply python_int_raises in H3. destruct H3 as [H3 ->].
           right. left. exists g1, g2, g3, g3. split; [exact Hm|].
           split; [|reflexivity]. right. right. auto.
      * apply python_int_raises in H2. destruct H2 as [H2 ->].
        right. left. exists g1, g2, g3, g2. split; [exact Hm|].
        split; [|reflexivity]. right. left. auto.
    + apply python_int_raises in H1. destruct H1 as [H1 ->].
      right. left. exists g1, g2, g3, g1. split; [exact Hm|].
      split; [|reflexivity]. left. auto.
  - right. right. split; [|reflexivity].
    intros g1 g2 g3 Htext. apply re_match_semver_spec in Htext. congruence.
Qed.

(** X2.  What [increment_version] returns parses again, to the
    bumped numbers: the result of one bump is a valid input of the
    next. *)
Theorem increment_version_reparses (version level new_version : str) :
  increment_version version level = Return new_version ->
  exists major minor patch,
    parse_version version = Return (major, minor, patch)
    /\ valid_level level
    /\ parse_version new_version
       = Return (if str_eqb level (lit "patch") then (major, minor, patch + 1)
                 else if str_eqb level (lit "minor") then (major, minor + 1, 0)
                 else (major + 1, 0, 0)).
Proof.
  intros Hinc.
  destruct (parse_version version) as [[[major minor] patch]|e] eqn:Hp;
    [|unfold increment_version in Hinc; rewrite Hp in Hinc; discriminate].
  rewrite (increment_level _ _ _ _ _ Hp) in Hinc.
  exists major, minor, patch. split; [reflexivity|].
  destruct (str_eqb level (lit "patch")) eqn:H1;
    [|destruct (str_eqb level (lit "minor")) eqn:H2;
      [|destruct (str_eqb level (lit "major")) eqn:H3; [|discriminate]]];
    (split; [|exact (parse_format_version _ _ _ _ Hinc)]).
  - left. apply str_eqb_eq. exact H1.
  - right. left. apply str_eqb_eq. exact H2.
  - right. right. apply str_eqb_eq. exact H3.
Qed.

Lemma increment_version_reparses_witness :
  exists major minor patch,
    parse_version (lit "1.9.9") = Return (major, minor, patch)
    /\ valid_level (lit "minor")
    /\ parse_version (lit "1.10.0")
       = Return (if str_eqb (lit "minor") (lit "patch")
                 then (major, minor, patch + 1)
                 else if str_eqb (lit "minor") (lit "minor")
                 then (major, minor + 1, 0)
                 else (major + 1, 0, 0)).
Proof.
  apply (increment_version_reparses (lit "1.9.9") (lit "minor") (lit "1.10.0")).
  reflexivity.
Defined.

(** X3.  [increment_version] raises in these cases and no other, each
    time with [ValueError]: [parse_version] raises, and its exception
    is passed on whatever the level is; or the version parses and the
    level is none of "patch", "minor", "major" (compared as written,
    case included); or the level is one of the three and the number it
    increments gets a digit more than the 4300 that [str] prints. *)
Theorem increment_version_raises (version level : str) (e : exn) :
  increment_version version level = Raise e <->
  parse_version version = Raise e
  \/ (exists major minor patch,
        parse_version version = Return (major, minor, patch)
        /\ ((~ valid_level level
             /\ e = Exn ValueError
                      (lit "Unknown level '" ++ level
                         ++ lit "'. Use: patch, minor, or major"))
            \/ (e = str_limit_error
                /\ ((level = lit "patch" /\ ~ printable (patch + 1))
                    \/ (level = lit "minor" /\ ~ printable (minor + 1))
                    \/ (level = lit "major" /\ ~ printable (major + 1)))))).
Proof.
  destruct (parse_version version) as [[[major minor] patch]|e0] eqn:Hp.
  - destruct (parsed_printable _ _ _ _ Hp) as (Hmajor & Hminor & Hpatch).
    pose proof printable_0 as Hzero.
    rewrite (increment_level _ _ _ _ _ Hp). unfold valid_level.
    pose proof (str_eqb_eq level (lit "patch")) as E1.
    pose proof (str_eqb_eq level (lit "minor")) as E2.
    pose proof (str_eqb_eq level (lit "major")) as E3.
    assert (D12 : lit "patch" <> lit "minor") by discriminate.
    assert (D13 : lit "patch" <> lit "major") by discriminate.
    assert (D23 : lit "minor" <> lit "major") by discriminate.
    destruct (str_eqb level (lit "patch"));
      [|destruct (str_eqb level (lit "minor"));
        [|destruct (str_eqb level (lit "major"))]].
    + assert (Hl : level = lit "patch") by (apply E1; reflexivity).
      rewrite format_version_raises. split.
      * intros [Hno ->]. right. exists major, minor, patch.
        split; [reflexivity|]. right. split; [reflexivity|]. left.
        split; [exact Hl | tauto].
      * intros [Hr | (a & b & c & Heq & Hcase)]; [discriminate|].
        injection Heq as <- <- <-.
        destruct Hcase as [[Hl' _] | [-> [[_ Hn] | [[Hl' _] | [Hl' _]]]]];
          try (exfalso; apply Hl'; auto); try congruence.
        split; [tauto | reflexivity].
    + assert (Hl : level = lit "minor") by (apply E2; reflexivity).
      rewrite format_version_raises. split.
      * intros [Hno ->]. right. exists major, minor, patch.
        split; [reflexivity|]. right. split; [reflexivity|]. right. left.
        split; [exact Hl | tauto].
      * intros [Hr | (a & b & c & Heq & Hcase)]; [discriminate|].
        injection Heq as <- <- <-.
        destruct Hcase as [[Hl' _] | [-> [[Hl' _] | [[_ Hn] | [Hl' _]]]]];
          try (exfalso; apply Hl'; auto); try congruence.
        split; [tauto | reflexivity].
    + assert (Hl : level = lit "major") by (apply E3; reflexivity).
      rewrite format_version_raises. split.
      * intros [Hno ->]. right. exists major, minor, patch.
        split; [reflexivity|]. right. split; [reflexivity|]. right. right.
        split; [exact Hl | tauto].
      * intros [Hr | (a & b & c & Heq & Hcase)]; [discriminate|].
        injection Heq as <- <- <-.
        destruct Hcase as [[Hl' _] | [-> [[Hl' _] | [[Hl' _] | [_ Hn]]]]];
          try (exfalso; apply Hl'; auto); try congruence.
        split; [tauto | reflexivity].
    + assert (Hno : ~ (level = lit "patch" \/ level = lit "minor"
                       \/ level = lit "major")).
      { intros [Hl | [Hl | Hl]];
          [apply E1 in Hl | apply E2 in Hl | apply E3 in Hl];
          discriminate Hl. }
      split.
      * intros [= <-]. right. exists major, minor, patch.
        split; [reflexivity|]. left. split; [exact Hno | reflexivity].
      * intros [Hr | (a & b & c & Heq & Hcase)]; [discriminate|].
        destruct Hcase as [[_ ->] | [_ [[Hl _] | [[Hl _] | [Hl _]]]]];
          [reflexivity | | |]; exfalso; apply Hno; auto.
  - unfold increment_version. rewrite Hp. split.
    + intros [= <-]. left. reflexivity.
    + intros [[= <-] | (a & b & c & Heq & _)]; [reflexivity|].
      discriminate Heq.
Qed.

(** X4.  Whatever the version read looked like (zeros in front,
    digits of another script, a line feed at its end), the version
    [increment_version] returns is three numerals in the digits 0-9,
    none with a zero in front of it, separated by two dots. *)
Theorem increment_version_canonical (version level new_version : str) :
  increment_version version level = Return new_version ->
  exists g1 g2 g3,
    new_version = g1 ++ DOT :: g2 ++ DOT :: g3
    /\ canonical_number g1 /\ canonical_number g2 /\ canonical_number g3.
Proof.
  intros Hinc.
  destruct (parse_version version) as [[[major minor] patch]|e] eqn:Hp;
    [|unfold increment_version in Hinc; rewrite Hp in Hinc; discriminate].
  rewrite (increment_level _ _ _ _ _ Hp) in Hinc.
  destruct (str_eqb level (lit "patch"));
    [|destruct (str_eqb level (lit "minor"));
      [|destruct (str_eqb level (lit "major")); [|discriminate]]];
    apply format_version_returns in Hinc; destruct Hinc as [_ ->];
    do 3 eexists; (split; [reflexivity|]);
    repeat split; try apply str_of_int_canonical.
Qed.

Lemma increment_version_canonical_witness :
  exists g1 g2 g3,
    lit "1.3.0" = g1 ++ DOT :: g2 ++ DOT :: g3
    /\ canonical_number g1 /\ canonical_number g2 /\ canonical_number g3.
Proof.
  apply (increment_version_canonical
           (lit "01.002.3" ++ [LF]) (lit "minor") (lit "1.3.0")).
  reflexivity.
Defined.

Lemma ascii_digits_uint (g : str) :
  Forall (fun c => 48 <= c <= 57) g -> exists u, uint_digits u = g.
Proof.
  induction 1 as [|c g Hc _ [u <-]]; [exists Decimal.Nil; reflexivity|].
  assert (Hcases : c = 48 \/ c = 49 \/ c = 50 \/ c = 51 \/ c = 52 \/
                   c = 53 \/ c = 54 \/ c = 55 \/ c = 56 \/ c = 57) by lia.
  destruct Hcases as [-> | [-> | [-> | [-> | [-> | [-> | [-> | [-> | [-> | ->]]]]]]]]].
  - exists (Decimal.D0 u). reflexivity.
  - exists (Decimal.D1 u). reflexivity.
  - exists (Decimal.D2 u). reflexivity.
  - exists (Decimal.D3 u). reflexivity.
  - exists (Decimal.D4 u). reflexivity.
  - exists (Decimal.D5 u). reflexivity.
  - exists (Decimal.D6 u). reflexivity.
  - exists (Decimal.D7 u). reflexivity.
  - exists (Decimal.D8 u). reflexivity.
  - exists (Decimal.D9 u). reflexivity.
Qed.

Lemma uint_digits_inj_nil (u : Decimal.uint) : uint_digits u = [] -> u = Decimal.Nil.
Proof. destruct u; simpl; [reflexivity | discriminate ..]. Qed.

Lemma int_of_uint_digits (u : Decimal.uint) :
  int_of_digits (uint_digits u) = N.of_uint u.
Proof.
  unfold int_of_digits.
  change 0 with (DecimalPos.Unsigned.of_lu Decimal.Nil).
  rewrite int_of_digits_revapp.
  change (Decimal.revapp u Decimal.Nil) with (Decimal.rev u).
  rewrite <- DecimalPos.Unsigned.of_uint_alt. reflexivity.
Qed.

(** A numeral without a zero in front is the one [str] prints for its
    value. *)
Lemma str_of_int_of_canonical (g : str) :
  canonical_number g -> str_of_int (int_of_digits g) = g.
Proof.
  intros [[Hne Hall] Hzero].
  destruct (ascii_digits_uint g Hall) as [u <-].
  rewrite int_of_uint_digits. unfold str_of_int.
  rewrite DecimalN.Unsigned.to_of. f_equal.
  destruct u; simpl in *; try reflexivity; try congruence.
  specialize (Hzero _ eq_refl). apply uint_digits_inj_nil in Hzero.
  subst u. reflexivity.
Qed.

(** X5.  Formatting and parsing are inverse to each other on the
    versions the tool writes.  Three numbers of 4300 digits at most are
    formatted, and what [format_version] returns parses to the numbers
    it was given; a text of three numerals in the digits 0-9, without
    zeros in front and of 4300 digits at most, parses to numbers that
    are formatted as that very text. *)
Theorem version_round_trip :
  (forall major minor patch,
     printable major -> printable minor -> printable patch ->
     exists s,
       format_version major minor patch = Return s
       /\ parse_version s = Return (major, minor, patch))
  /\ (forall major minor patch s,
        format_version major minor patch = Return s ->
        parse_version s = Return (major, minor, patch))
  /\ (forall g1 g2 g3,
        canonical_number g1 -> canonical_number g2 -> canonical_number g3 ->
        within_limit g1 -> within_limit g2 -> within_limit g3 ->
        exists major minor patch,
          parse_version (g1 ++ DOT :: g2 ++ DOT :: g3)
          = Return (major, minor, patch)
          /\ format_version major minor patch
             = Return (g1 ++ DOT :: g2 ++ DOT :: g3)).
Proof.
  split; [|split; [exact parse_format_version|]].
  - intros major minor patch H1 H2 H3. eexists. split.
    + apply format_version_returns. split; [auto | reflexivity].
    + apply parse_format_version.
      apply format_version_returns. split; [auto | reflexivity].
  - intros g1 g2 g3 H1 H2 H3 L1 L2 L3.
    exists (int_of_digits g1), (int_of_digits g2), (int_of_digits g3). split.
    + apply parse_version_returns_iff. exists g1, g2, g3.
      split; [|split; [auto | auto]].
      split; [apply ascii_digits_digits, H1|].
      split; [apply ascii_digits_digits, H2|].
      split; [apply ascii_digits_digits, H3|]. left. reflexivity.
    + apply format_version_returns. split.
      * repeat split; apply value_printable; try assumption;
          [apply H1 | apply H2 | apply H3].
      * rewrite !str_of_int_of_canonical by assumption. reflexivity.
Qed.

(* ================================================================== *)
(** * Further properties of the template locator *)




(** ** The order of the result *)

Lemma strictly_sorted_unique (l1 l2 : list path) :
  StronglySorted (fun p q => path_ltb p q = true) l1 ->
  StronglySorted (fun p q => path_ltb p q = true) l2 ->
  (forall p, In p l1 <-> In p l2) ->
  l1 = l2.
Proof.
  intros H1. revert l2.
  induction H1 as [|a l1 Hs1 IH Ha]; intros l2 H2 Hsame.
  - destruct l2 as [|b l2]; [reflexivity|].
    destruct (proj2 (Hsame b) (or_introl eq_refl)).
  - destruct H2 as [|b l2 Hs2 Hb].
    + destruct (proj1 (Hsame a) (or_introl eq_refl)).
    + rewrite Forall_forall in Ha, Hb.
      assert (Hab : a = b).
      { destruct (proj1 (Hsame a) (or_introl eq_refl)) as [Heq | Hin];
          [auto|].
        destruct (proj2 (Hsame b) (or_introl eq_refl)) as [Heq | Hin'];
          [auto|].
        pose proof (path_ltb_asym _ _ (Ha b Hin')) as Hno.
        rewrite (Hb a Hin) in Hno. discriminate Hno. }
      subst b. f_equal. apply IH; [exact Hs2|].
      intros p. split; intros Hin.
      * destruct (proj1 (Hsame p) (or_intror Hin)) as [Heq | Hin2];
          [|exact Hin2].
        subst p. pose proof (Ha a Hin) as Hlt.
        rewrite path_ltb_irrefl in Hlt. discriminate Hlt.
      * destruct (proj2 (Hsame p) (or_intror Hin)) as [Heq | Hin1];
          [|exact Hin1].
        subst p. pose proof (Hb a Hin) as Hlt.
        rewrite path_ltb_irrefl in Hlt. discriminate Hlt.
Qed.

(** X7.  What the locator returns does not depend on the order in
    which the directories list their entries: on two trees that hold
    the same entries it gives the same result, the same list in the
    same order or the same error. *)
Theorem find_templates_listing_order (root1 root2 : node) (target : path) :
  unique_names root1 = true -> unique_names root2 = true ->
  same_entries root1 root2 ->
  find_templates root1 target = find_templates root2 target.
Proof.
  intros Hu1 Hu2 Hsame. unfold find_templates.
  destruct (Hsame target) as (He & Hf & Hd). rewrite <- He, <- Hf, <- Hd.
  destruct (negb (path_exists root1 target)); [reflexivity|].
  destruct (is_file root1 target && str_eqb (name target) MANIFEST);
    [reflexivity|].
  destruct (is_dir root1 target) eqn:Hdir; [|reflexivity].
  assert (Heq : sorted (rglob root1 target MANIFEST)
                = sorted (rglob root2 target MANIFEST)).
  { apply strictly_sorted_unique.
    - apply sorted_strict; [|apply sorted_le].
      apply (Permutation_NoDup (sorted_perm _)), rglob_NoDup, Hu1.
    - apply sorted_strict; [|apply sorted_le].
      apply (Permutation_NoDup (sorted_perm _)), rglob_NoDup, Hu2.
    - intros p.
      assert (Hin1 : In p (sorted (rglob root1 target MANIFEST))
                     <-> In p (rglob root1 target MANIFEST)).
      { split; apply Permutation_in;
          [apply Permutation_sym|]; apply sorted_perm. }
      assert (Hin2 : In p (sorted (rglob root2 target MANIFEST))
                     <-> In p (rglob root2 target MANIFEST)).
      { split; apply Permutation_in;
          [apply Permutation_sym|]; apply sorted_perm. }
      rewrite Hin1, Hin2.
      rewrite (rglob_in root1 target p Hu1 Hdir).
      rewrite (rglob_in root2 target p Hu2 (eq_sym Hd)).
      split; intros (rel & Hp & Hexists); exists rel; (split; [exact Hp|]);
        destruct (Hsame p) as (Hep & _); congruence. }
  cbv zeta. rewrite Heq. reflexivity.
Qed.

Lemma find_templates_listing_order_witness :
  find_templates two_templates [lit "src"]
  = find_templates two_templates_backwards [lit "src"].
Proof.
  apply (find_templates_listing_order two_templates two_templates_backwards
           [lit "src"]).
  - reflexivity.
  - reflexivity.
  - intros p. unfold path_exists, is_file, is_dir, two_templates,
      two_templates_backwards.
    destruct p as [|a [|b p]]; cbn [lookup assoc];
      try (repeat split; reflexivity).
    + destruct (str_eqb (lit "src") a); repeat split; reflexivity.
    + destruct (str_eqb (lit "src") a); [|repeat split; reflexivity].
      cbn [lookup assoc].
      destruct (str_eqb (lit "nanodev") b), (str_eqb (lit "nanodev-node") b);
        repeat split; reflexivity.
Defined.

(* ================================================================== *)
(** * Further properties of the template updater *)

Section UpdaterReports.
Context `{Runtime}.

(** X8.  A manifest that is a JSON object without a version, or with
    one that Python takes for false (null, false, 0, an empty string,
    list or object), is not updated: with or without the dry run the
    call returns False, and all it does is write the line "Error: No
    version field in" with the path to the standard error. *)
Theorem missing_version_is_reported (template_file : path) (level : str)
    (dry_run : bool) (w : world) (content : bytes)
    (items : list (str * value)) :
  lookup (fs w) template_file = Some (File content) ->
  json_load content = Return (VDict items) ->
  truthy (match assoc (lit "version") items with
          | Some v => v
          | None => VNone
          end) = false ->
  faults w = [] ->
  update_template_version template_file level dry_run w
  = (Return false,
     add_stderr w (RED ++ lit "Error: No version field in "
                       ++ path_str template_file ++ RESET)).
Proof.
  intros Hfile Hjson Hversion Hfaults.
  cbv [update_template_version try_except bind read_text take_fault lift
       get ret eprint].
  rewrite Hfaults, Hfile, Hjson, Hversion. reflexivity.
Qed.

(** X9.  A manifest that [json.load] cannot read is not updated: the
    call returns False and all it does is write one line to the
    standard error, "Error: Invalid JSON in" with the path and the
    message when the text is not JSON, "Error updating" with the path
    and the message otherwise (a file that is not UTF-8). *)
Theorem unreadable_json_is_reported (template_file : path) (level : str)
    (dry_run : bool) (w : world) (content : bytes) (e : exn) :
  lookup (fs w) template_file = Some (File content) ->
  json_load content = Raise e ->
  faults w = [] ->
  update_template_version template_file level dry_run w
  = (Return false,
     add_stderr w
       (RED ++ (if subclass (exn_type e) JSONDecodeError
                then lit "Error: Invalid JSON in "
                else lit "Error updating ")
            ++ path_str template_file ++ lit ": " ++ exn_msg e ++ RESET)).
Proof.
  intros Hfile Hjson Hfaults.
  cbv [update_template_version try_except bind read_text take_fault lift
       get ret eprint].
  rewrite Hfaults, Hfile, Hjson.
  destruct (subclass (exn_type e) JSONDecodeError); reflexivity.
Qed.

End UpdaterReports.


Lemma missing_version_is_reported_witness :
  @update_template_version Reference.runtime example_path (lit "patch") false
    (quiet utf8_stdout (one_template versionless_manifest))
  = (Return false,
     add_stderr (quiet utf8_stdout (one_template versionless_manifest))
       (RED ++ lit "Error: No version field in "
            ++ path_str example_path ++ RESET)).
Proof.
  apply (@missing_version_is_reported Reference.runtime example_path
           (lit "patch") false
           (quiet utf8_stdout (one_template versionless_manifest))
           versionless_manifest [ (lit "id", VStr (lit "t")) ]).
  - reflexivity.
  - reflexivity.
  - reflexivity.
  - reflexivity.
Defined.

Lemma unreadable_json_is_reported_witness :
  @update_template_version Reference.runtime example_path (lit "patch") false
    (quiet utf8_stdout (one_template (lit "invalid json")))
  = (Return false,
     add_stderr (quiet utf8_stdout (one_template (lit "invalid json")))
       (RED ++ (if subclass JSONDecodeError JSONDecodeError
                then lit "Error: Invalid JSON in "
                else lit "Error updating ")
            ++ path_str example_path ++ lit ": "
            ++ lit "Expecting value: line 1 column 1 (char 0)"
            ++ RESET)).
Proof.
  apply (@unreadable_json_is_reported Reference.runtime example_path
           (lit "patch") false
           (quiet utf8_stdout (one_template (lit "invalid json")))
           (lit "invalid json")
           (Exn JSONDecodeError
              (lit "Expecting value: line 1 column 1 (char 0)"))).
  - reflexivity.
  - reflexivity.
  - reflexivity.
Defined.

(** ** Running one path of a program *)










(** ** Creating and removing an entry *)








Section UpdaterSucceeds.
Context `{Runtime}.


End UpdaterSucceeds.


(** ** Entries that a change does not reach *)

Lemma lookup_below_file (n : node) (nm : str) (rest : path) (c : bytes) :
  (forall es, n <> Dir es) -> lookup n (nm :: rest) <> Some (File c).
Proof. intros Hn. destruct n as [c'|es|]; cbn; try discriminate. elim (Hn es). reflexivity. Qed.

Lemma put_keeps_file (root root' new : node) (p q : path) (c : bytes) :
  put root p new = Some root' ->
  lookup root q = Some (File c) -> q <> p -> is_dir root p = false ->
  lookup root' q = Some (File c).
Proof.
  revert root root' q.
  induction p as [|nm rest IH]; intros root root' q Hput Hq Hne Hdir;
    [discriminate|].
  cbn [put] in Hput. destruct root as [|es|]; try discriminate.
  destruct q as [|qn qrest]; [discriminate|].
  unfold is_dir in Hdir. cbn [lookup] in Hq, Hdir.
  destruct (str_eqb nm qn) eqn:Hnm.
  - apply str_eqb_eq in Hnm. subst qn.
    destruct rest as [|nm' rest'].
    + exfalso. destruct qrest as [|x xs]; [congruence|].
      destruct (assoc nm es) as [child|]; [|discriminate].
      cbn [lookup] in Hdir. revert Hq. apply lookup_below_file.
      intros es' ->. discriminate.
    + destruct (assoc nm es) as [child|] eqn:Ha; [|discriminate].
      destruct (put child (nm' :: rest') new) as [child'|] eqn:Hc;
        [|discriminate].
      injection Hput as <-. cbn [lookup]. rewrite assoc_set_same.
      apply (IH child child' qrest Hc Hq); [congruence|exact Hdir].
  - apply str_eqb_neq in Hnm.
    assert (Hroot' : exists es', root' = Dir es' /\ assoc qn es' = assoc qn es).
    { destruct rest as [|nm' rest'].
      - injection Hput as <-. eexists. split; [reflexivity|].
        apply assoc_set_other. exact Hnm.
      - destruct (assoc nm es) as [child|]; [|discriminate].
        destruct (put child (nm' :: rest') new) as [child'|]; [|discriminate].
        injection Hput as <-. eexists. split; [reflexivity|].
        apply assoc_set_other. exact Hnm. }
    destruct Hroot' as (es' & -> & Hsame). cbn [lookup]. rewrite Hsame. exact Hq.
Qed.

Lemma remove_keeps_file (root root' : node) (p q : path) (c : bytes) :
  remove root p = Some root' ->
  lookup root q = Some (File c) -> q <> p -> is_dir root p = false ->
  lookup root' q = Some (File c).
Proof.
  revert root root' q.
  induction p as [|nm rest IH]; intros root root' q Hrm Hq Hne Hdir;
    [discriminate|].
  cbn [remove] in Hrm. destruct root as [|es|]; try discriminate.
  destruct q as [|qn qrest]; [discriminate|].
  unfold is_dir in Hdir. cbn [lookup] in Hq, Hdir.
  destruct (str_eqb nm qn) eqn:Hnm.
  - apply str_eqb_eq in Hnm. subst qn.
    destruct rest as [|nm' rest'].
    + exfalso. destruct qrest as [|x xs]; [congruence|].
      destruct (assoc nm es) as [child|]; [|discriminate].
      cbn [lookup] in Hdir. revert Hq. apply lookup_below_file.
      intros es' ->. discriminate.
    + destruct (assoc nm es) as [child|] eqn:Ha; [|discriminate].
      destruct (remove child (nm' :: rest')) as [child'|] eqn:Hc;
        [|discriminate].
      injection Hrm as <-. cbn [lookup]. rewrite assoc_set_same.
      apply (IH child child' qrest Hc Hq); [congruence|exact Hdir].
  - apply str_eqb_neq in Hnm.
    assert (Hroot' : exists es', root' = Dir es' /\ assoc qn es' = assoc qn es).
    { destruct rest as [|nm' rest'].
      - injection Hrm as <-. eexists. split; [reflexivity|].
        apply assoc_remove_other. exact Hnm.
      - destruct (assoc nm es) as [child|]; [|discriminate].
        destruct (remove child (nm' :: rest')) as [child'|]; [|discriminate].
        injection Hrm as <-. eexists. split; [reflexivity|].
        apply assoc_set_other. exact Hnm. }
    destruct Hroot' as (es' & -> & Hsame). cbn [lookup]. rewrite Hsame. exact Hq.
Qed.

Lemma file_is_not_dir (root : node) (p : path) (c : bytes) :
  lookup root p = Some (File c) -> is_dir root p = false.
Proof. unfold is_dir. intros ->. reflexivity. Qed.

Section UpdaterFrameAll.
Context `{Runtime}.

(** X11.  An update touches two entries at most, the manifest and
    the temporary file next to it: whatever the outcome, with or
    without the dry run, every other regular file is still there with
    the content it had. *)
Theorem update_keeps_other_files (template_file : path) (level : str)
    (dry_run : bool) (w : world) (q : path) (c : bytes) :
  lookup (fs w) q = Some (File c) ->
  q <> template_file ->
  (forall temp_file,
     with_suffix template_file (lit ".tmp") = Return temp_file ->
     q <> temp_file) ->
  lookup (fs (snd (update_template_version template_file level dry_run w))) q
  = Some (File c).
Proof.
  intros Hq Hmanifest Htemp.
  change (wp (update_template_version template_file level dry_run) w
             (fun _ w' => lookup (fs w') q = Some (File c))).
  unfold update_template_version. wp_auto; settle_worlds; try assumption.
  all: repeat match goal with
         | Ht : forall t, Return ?a = Return t -> _ |- _ =>
             pose proof (Ht a eq_refl); clear Ht
         end.
  all: repeat match goal with
         | E : lookup ?r ?p = Some (File _) |- _ =>
             lazymatch goal with
             | _ : is_dir r p = false |- _ => fail
             | _ => pose proof (file_is_not_dir _ _ _ E)
             end
         | E : lookup ?r ?p = None |- _ =>
             lazymatch goal with
             | _ : is_dir r p = false |- _ => fail
             | _ => assert (is_dir r p = false)
                      by (unfold is_dir; rewrite E; reflexivity)
             end
         | Hput : put ?r ?p ?new = Some ?r' |- _ =>
             lazymatch goal with
             | _ : lookup r' p = Some new |- _ => fail
             | _ => pose proof (lookup_put_same _ _ _ _ Hput)
             end
         | Hput : put ?r ?p _ = Some ?r', Hl : lookup ?r ?x = Some (File ?cx),
           Hd : is_dir ?r ?p = false |- _ =>
             lazymatch goal with
             | _ : lookup r' x = Some (File cx) |- _ => fail
             | _ => assert (lookup r' x = Some (File cx))
                      by (apply (put_keeps_file _ _ _ _ _ _ Hput Hl);
                          [congruence | exact Hd])
             end
         | Hrm : remove ?r ?p = Some ?r', Hl : lookup ?r ?x = Some (File ?cx),
           Hd : is_dir ?r ?p = false |- _ =>
             lazymatch goal with
             | _ : lookup r' x = Some (File cx) |- _ => fail
             | _ => assert (lookup r' x = Some (File cx))
                      by (apply (remove_keeps_file _ _ _ _ _ Hrm Hl);
                          [congruence | exact Hd])
             end
         end.
  all: try assumption.
Qed.

End UpdaterFrameAll.

Lemma update_keeps_other_files_witness :
  lookup (fs (snd (@update_template_version Reference.runtime
                     [lit "src"; lit "nanodev"; MANIFEST] (lit "patch") false
                     (quiet utf8_stdout two_templates))))
         [lit "src"; lit "nanodev-node"; MANIFEST]
  = Some (File example_manifest).
Proof.
  apply (@update_keeps_other_files Reference.runtime
           [lit "src"; lit "nanodev"; MANIFEST] (lit "patch") false
           (quiet utf8_stdout two_templates)
           [lit "src"; lit "nanodev-node"; MANIFEST] example_manifest).
  - reflexivity.
  - intros Heq. vm_compute in Heq. discriminate Heq.
  - intros temp_file Htemp Heq. vm_compute in Htemp. injection Htemp as <-.
    vm_compute in Heq. discriminate Heq.
Defined.

Section FailedUpdate.
Context `{Runtime}.


End FailedUpdate.


(* ================================================================== *)
(** * Further properties of the commit step *)

Lemma run_subprocess (argv : list str) (w : world) (err : str) :
  children w argv = Exited 0 err ->
  subprocess_run argv w = (Return tt, add_spawned w argv).
Proof. unfold subprocess_run. intros ->. reflexivity. Qed.



(** X14.  How the commit step fails.  When [git add] ends with a
    status other than 0, [git commit] is not started; when either
    command does, the call returns False and writes to the standard
    error "Git error: " with what the command wrote to its own
    standard error, stripped of the white space around it, or with
    "Unknown error" when it wrote nothing; when git is not installed
    the call returns False and writes "Error: git command not
    found". *)
Theorem commit_changes_reports (level : str) (w : world) :
  let report (err : str) :=
    RED ++ lit "Git error: "
        ++ match err with [] => lit "Unknown error" | _ => strip err end
        ++ RESET in
  (forall code err,
     children w git_add = Exited code err -> code <> 0%Z ->
     commit_changes level w
     = (Return false, add_stderr (add_spawned w git_add) (report err)))
  /\ (forall err0 code err,
        children w git_add = Exited 0 err0 ->
        children w (git_commit level) = Exited code err -> code <> 0%Z ->
        commit_changes level w
        = (Return false,
           add_stderr (add_spawned (add_spawned w git_add) (git_commit level))
                      (report err)))
  /\ (children w git_add = NotFound ->
      commit_changes level w
      = (Return false,
         add_stderr w (RED ++ lit "Error: git command not found" ++ RESET))).
Proof.
  intros report. unfold commit_changes, try_except, bind, subprocess_run.
  split; [|split].
  - intros code err Hadd Hcode. rewrite Hadd.
    apply Z.eqb_neq in Hcode. rewrite Hcode. cbn.
    destruct err; reflexivity.
  - intros err0 code err Hadd Hcommit Hcode. rewrite Hadd.
    cbn [Z.eqb children add_spawned]. rewrite Hcommit.
    apply Z.eqb_neq in Hcode. rewrite Hcode. cbn.
    destruct err; reflexivity.
  - intros Hadd. rewrite Hadd. reflexivity.
Qed.

(* ================================================================== *)
(** * Further properties of the entry point of the version bump *)

Lemma after_fault_spawned (w : world) (f : option nat) (w1 : world) :
  after_fault w f w1 -> spawned w1 = spawned w.
Proof. destruct 1; reflexivity. Qed.

Section BumpEffects.
Context `{Runtime}.

(** An update starts no process. *)
Lemma update_spawns_nothing (template_file : path) (level : str)
    (dry_run : bool) (w : world) :
  wp (update_template_version template_file level dry_run) w
     (fun _ w' => spawned w' = spawned w).
Proof.
  unfold update_template_version. wp_auto.
  all: repeat match goal with
         | Hf : after_fault _ _ _ |- _ =>
             pose proof (after_fault_spawned _ _ _ Hf); clear Hf
         end.
  all: cbn [spawned with_fs add_stdout add_stderr with_faults add_spawned]
         in *.
  all: congruence.
Qed.

(** The loop of [main] starts no process, and in a dry run it changes
    no file. *)
Lemma update_each_effects (level : str) (dry_run : bool)
    (templates : list path) (failed : N) (w : world) :
  exists oks w1,
    batch_results templates level dry_run w = (oks, w1)
    /\ update_each templates level dry_run failed w
       = (Return (failed + failures oks), w1)
    /\ spawned w1 = spawned w
    /\ (dry_run = true -> fs w1 = fs w).
Proof.
  revert failed w. induction templates as [|template rest IH]; intros failed w.
  - exists [], w. cbn. rewrite N.add_0_r. auto.
  - cbn [batch_results update_each]. unfold bind at 1.
    destruct (update_template_version template level dry_run w)
      as [r w1] eqn:Hupdate.
    destruct (wp_run _ _ _ (update_returns_and_keeps_console
                              template level dry_run w) _ _ Hupdate)
      as ((ok & ->) & _).
    pose proof (wp_run _ _ _ (update_spawns_nothing template level dry_run w)
                  _ _ Hupdate) as Hspawned.
    assert (Hfs : dry_run = true -> fs w1 = fs w).
    { intros ->.
      exact (wp_run _ _ _ (dry_run_keeps_file_system template level w)
               _ _ Hupdate). }
    unfold bind at 1. unfold print at 1. cbn [forallb].
    destruct (IH (if negb ok then failed + 1 else failed) (add_stdout w1 []))
      as (oks & w2 & Hbatch & Heach & Hspawned2 & Hfs2).
    rewrite Hbatch, Heach. exists (ok :: oks), w2.
    split; [reflexivity|]. split; [|split].
    + f_equal. f_equal. cbn [failures]. destruct ok; cbn [negb]; lia.
    + rewrite Hspawned2. exact Hspawned.
    + intros Hdry. rewrite (Hfs2 Hdry). exact (Hfs Hdry).
Qed.

Lemma wp_update_each_effects (templates : list path) (level : str)
    (dry_run : bool) (failed : N) (w : world)
    (Q : result N -> world -> Prop) :
  (forall oks w1,
     batch_results templates level dry_run w = (oks, w1) ->
     spawned w1 = spawned w ->
     (dry_run = true -> fs w1 = fs w) ->
     Q (Return (failed + failures oks)) w1) ->
  wp (update_each templates level dry_run failed) w Q.
Proof.
  intros HQ.
  destruct (update_each_effects level dry_run templates failed w)
    as (oks & w1 & Hbatch & Heach & Hspawned & Hfs).
  unfold wp. rewrite Heach. apply HQ; assumption.
Qed.

(** X15.  A dry run of the version bump changes no file and starts no
    process, whatever the templates hold and whatever the console can
    show. *)
Theorem dry_run_changes_nothing (args : bump_args) (w : world) :
  arg_dry_run args = true ->
  fs (snd (main args w)) = fs w
  /\ spawned (snd (main args w)) = spawned w.
Proof.
  intros Hdry.
  change (wp (main args) w
             (fun _ w' => fs w' = fs w /\ spawned w' = spawned w)).
  unfold main. rewrite Hdry.
  repeat first
    [ lazymatch goal with
      | |- wp (update_each _ _ _ _) _ _ =>
          apply wp_update_each_effects; intros oks w1 Hbatch Hspawned Hfs;
          specialize (Hfs eq_refl)
      | |- wp (if _ && negb true && _ then _ else _) _ _ =>
          cbn [negb]; rewrite andb_false_r; cbn [andb]
      end
    | wp_step
    | progress cbv beta iota zeta
    | progress intros ].
  all: cbn [fs spawned add_stdout add_stderr] in *.
  all: split; congruence.
Qed.

Lemma commit_spawns (level : str) (w : world) :
  wp (commit_changes level) w
     (fun _ w' =>
        exists started,
          spawned w' = spawned w ++ started
          /\ (started = [] \/ started = [git_add]
              \/ started = [git_add; git_commit level])).
Proof.
  unfold commit_changes.
  repeat first [ wp_step | progress cbv beta iota zeta | progress intros ].
  all: repeat match goal with started : bool |- _ => destruct started end.
  all: cbn [spawned add_stdout add_stderr add_spawned].
  all: first
         [ exists []; rewrite app_nil_r; split; [reflexivity | auto]
         | exists [git_add]; split; [reflexivity | auto]
         | exists [git_add; git_commit level]; rewrite <- app_assoc;
           split; [reflexivity | auto] ].
Qed.

(** X16.  The entry point starts no process but the two of the
    commit step, [git add] and then [git commit], and these only when
    the commit was asked for, the run is not a dry run, and every
    update of the batch returned True: the batch of the templates
    found, run on the tree, the plan of faults, the child processes
    and the console of the world [main] started in. *)
Theorem commit_only_when_due (args : bump_args) (w : world) :
  exists started,
    spawned (snd (main args w)) = spawned w ++ started
    /\ (started = [] \/ started = [git_add]
        \/ started = [git_add; git_commit (arg_level args)])
    /\ (started <> [] ->
        arg_commit args = true /\ arg_dry_run args = false
        /\ exists templates w0 oks w1,
             find_templates (fs w) (arg_target args) = Return templates
             /\ (fs w0 = fs w /\ faults w0 = faults w
                 /\ children w0 = children w
                 /\ stdout_encodes w0 = stdout_encodes w)
             /\ batch_results templates (arg_level args) false w0 = (oks, w1)
             /\ forallb id oks = true).
Proof.
  change (wp (main args) w
            (fun _ w' =>
               exists started,
                 spawned w' = spawned w ++ started
                 /\ (started = [] \/ started = [git_add]
                     \/ started = [git_add; git_commit (arg_level args)])
                 /\ (started <> [] ->
                     arg_commit args = true /\ arg_dry_run args = false
                     /\ exists templates w0 oks w1,
                          find_templates (fs w) (arg_target args)
                          = Return templates
                          /\ (fs w0 = fs w /\ faults w0 = faults w
                              /\ children w0 = children w
                              /\ stdout_encodes w0 = stdout_encodes w)
                          /\ batch_results templates (arg_level args) false w0
                             = (oks, w1)
                          /\ forallb id oks = true))).
  unfold main.
  repeat first
    [ lazymatch goal with
      | |- wp (update_each _ _ _ _) _ _ =>
          apply wp_update_each_effects; intros oks w1 Hbatch Hspawned _
      | |- wp (commit_changes _) _ _ =>
          apply wp_intro; intros committed w2 Hcommit;
          destruct (wp_run _ _ _ (commit_spawns _ _) _ _ Hcommit)
            as (started & Hstarted & Hshape)
      | |- wp (if arg_dry_run args then _ else _) _ _ =>
          destruct (arg_dry_run args) eqn:Hdry
      | |- wp (match find_templates ?r _ with _ => _ end) _ _ =>
          cbn [fs add_stdout];
          destruct (find_templates (fs w) (arg_target args))
            as [templates|e] eqn:Hfind
      end
    | wp_step
    | progress cbv beta iota zeta
    | progress intros ].
  all: cbn [spawned fs add_stdout add_stderr add_spawned] in *.
  all: try (exists []; rewrite app_nil_r;
            split; [congruence|]; split; [left; reflexivity|];
            intros Hne; exfalso; apply Hne; reflexivity).
  all: exists started.
  all: (split; [congruence|]); (split; [exact Hshape|]); intros _.
  all: repeat match goal with
         | E : _ && _ = true |- _ => apply andb_true_iff in E; destruct E
         | E : negb _ = true |- _ => apply negb_true_iff in E
         | E : (_ =? _) = true |- _ => apply N.eqb_eq in E
         end.
  all: try congruence.
  all: (split; [assumption|]); (split; [reflexivity|]).
  all: exists templates; do 3 eexists.
  all: (split; [reflexivity|]); (split; [|split; [exact Hbatch|]]);
    [ cbn [fs faults children stdout_encodes add_stdout]; auto
    | apply failures_none; assumption ].
Qed.

End BumpEffects.

Lemma dry_run_changes_nothing_witness :
  fs (snd (@main Reference.runtime
             (BumpArgs (lit "patch") [lit "src"] true true)
             (quiet utf8_stdout (one_template example_manifest))))
  = fs (quiet utf8_stdout (one_template example_manifest))
  /\ spawned (snd (@main Reference.runtime
                     (BumpArgs (lit "patch") [lit "src"] true true)
                     (quiet utf8_stdout (one_template example_manifest))))
     = spawned (quiet utf8_stdout (one_template example_manifest)).
Proof.
  apply (@dry_run_changes_nothing Reference.runtime
           (BumpArgs (lit "patch") [lit "src"] true true)
           (quiet utf8_stdout (one_template example_manifest))).
  reflexivity.
Defined.


Lemma locator_failure_exit_status_witness :
  fst (exit_status
         (@main Reference.runtime
            (BumpArgs (lit "patch") [lit "missing"] false true))
         example_world) = 1%Z
  /\ fs (snd (exit_status
                (@main Reference.runtime
                   (BumpArgs (lit "patch") [lit "missing"] false true))
                example_world)) = fs example_world
  /\ spawned (snd (exit_status
                     (@main Reference.runtime
                        (BumpArgs (lit "patch") [lit "missing"] false true))
                     example_world)) = spawned example_world.
Proof.
  apply (@locator_failure_exit_status Reference.runtime
           (BumpArgs (lit "patch") [lit "missing"] false true)
           example_world (TargetNotFound [lit "missing"])).
  reflexivity.
Defined.

(* ================================================================== *)
(** * Further properties of the publish orchestrator *)



(** X20.  The processes the orchestrator starts, in every run: the
    bump step first and only when it was asked for, then the
    publishing tool, and that only when the run is not a dry run and
    the bump step, if there was one, ended with status 0.  Nothing else
    is started. *)
Theorem publish_process_order (args : publish_templates.publish_args)
    (w : world) :
  exists started,
    spawned (snd (publish_templates.main args w)) = spawned w ++ started
    /\ (started = []
        \/ started = [publish_templates.bump_cmd args]
        \/ started = [publish_templates.publish_cmd args]
        \/ started = [publish_templates.bump_cmd args;
                      publish_templates.publish_cmd args])
    /\ (In (publish_templates.bump_cmd args) started ->
        publish_templates.arg_update_version args = true)
    /\ (In (publish_templates.publish_cmd args) started ->
        publish_templates.arg_dry_run args = false
        /\ (publish_templates.arg_update_version args = true ->
            exists err,
              children w (publish_templates.bump_cmd args) = Exited 0 err)).
Proof.
  pose proof (bump_cmd_is_not_publish_cmd args) as Hdiffer.
  change (wp (publish_templates.main args) w
            (fun _ w' =>
               exists started,
                 spawned w' = spawned w ++ started
                 /\ (started = []
                     \/ started = [publish_templates.bump_cmd args]
                     \/ started = [publish_templates.publish_cmd args]
                     \/ started = [publish_templates.bump_cmd args;
                                   publish_templates.publish_cmd args])
                 /\ (In (publish_templates.bump_cmd args) started ->
                     publish_templates.arg_update_version args = true)
                 /\ (In (publish_templates.publish_cmd args) started ->
                     publish_templates.arg_dry_run args = false
                     /\ (publish_templates.arg_update_version args = true ->
                         exists err,
                           children w (publish_templates.bump_cmd args)
                           = Exited 0 err)))).
  unfold publish_templates.main.
  destruct (publish_templates.arg_update_version args) eqn:Hupdate;
    destruct (publish_templates.arg_dry_run args) eqn:Hdry.
  all: repeat first
         [ progress cbn [negb subclass exn_type exn_class_eqb base_class orb
                         children add_stdout add_stderr add_spawned]
         | wp_step
         | progress cbv beta iota zeta
         | progress intros ].
  all: repeat match goal with started : bool |- _ => destruct started end.
  all: cbn [spawned add_stdout add_stderr add_spawned children] in *.
  all: repeat match goal with
         | E : (_ =? _)%Z = true |- _ => apply Z.eqb_eq in E; subst
         end.
  all: rewrite <- ?app_assoc; cbn [app].
  all: eexists; (split; [first [reflexivity | symmetry; apply app_nil_r]|]).
  all: (split; [auto 6|]).
  all: cbn [In]; split.
  all: try (intros [Hin | [Hin | []]]); try (intros [Hin | []]);
    try (intros []); try reflexivity; try congruence.
  all: try (split; [reflexivity|]; intros _; eexists; eassumption).
  all: try (split; [reflexivity|]; intros Hfalse; discriminate Hfalse).
  all: try (exfalso; apply Hdiffer; congruence).
  all: split; [reflexivity|]; intros _; eexists; reflexivity.
Qed.
